(** * run-exps.py: a shallow embedding of the KLEE experiment runner

    The harness runs KLEE under two configurations on every [.bc] file of a
    directory, kills runs that overstay their budget, and stores a unified
    diff of the two outcomes next to the benchmark.  This file embeds the
    Python source function by function and proves properties of it.

    Conventions of the embedding:
    - Python [int] is [Z]; [str] is [string]; a list of [str] is
      [list string].
    - [KLEE.SYM_ARGS] is a [collections.defaultdict]: a lookup of a missing
      key calls the factory and STORES the fresh value, so a lookup returns
      a value and a table.
    - The file system is a finite map from paths (lists of components) to
      nodes; the functions of [os] and [shutil] that the source calls are
      given with the exceptions they raise.
    - Everything the harness does to the outside world is threaded through
      a [world]: the file system, the profile table, the mutable class
      attribute [KLEE.BENCHMARKS_PATH], a clock in seconds and the list of
      observable events (log lines, files opened, processes spawned and
      killed).
    - Programs outside the repository (KLEE, klee-stats, the shell's child,
      [difflib.unified_diff]) are section variables. *)

From Stdlib Require Import ZArith Ascii String List DecimalString.
From stdpp Require Import base option list gmap strings fin_maps.

Open Scope string_scope.
Open Scope list_scope.
Open Scope Z_scope.

(** ** Strings *)

Module Str.

(** [str(n)] for a Python [int]. *)
Definition of_Z (n : Z) : string := NilZero.string_of_int (Z.to_int n).

(** [sep.join(l)] *)
Definition join (sep : string) (l : list string) : string := String.concat sep l.

(** [s.startswith(p)] *)
Definition startswith (p s : string) : bool := String.prefix p s.

(** [s.endswith(p)] *)
Definition endswith (p s : string) : bool :=
  let n := String.length s in
  let k := String.length p in
  if (k <=? n)%nat then String.eqb (String.substring (n - k) k s) p else false.

(** [s.rfind(c)] for a one-character [c]: the index of the last occurrence,
    or [-1].  [i] is the index of the head of [s] in the whole string. *)
Fixpoint rfind_from (c : ascii) (s : string) (i : Z) : Z :=
  match s with
  | EmptyString => -1
  | String a s' =>
      let r := rfind_from c s' (i + 1) in
      if 0 <=? r then r else if Ascii.eqb a c then i else -1
  end.

Definition rfind (c : ascii) (s : string) : Z := rfind_from c s 0.

(** [s[i:i+1]] *)
Definition char_at (s : string) (i : Z) : string :=
  if i <? 0 then "" else String.substring (Z.to_nat i) 1 s.

(** [s[:i]] and [s[i:]] for [0 <= i]. *)
Definition take (i : Z) (s : string) : string := String.substring 0 (Z.to_nat i) s.
Definition drop (i : Z) (s : string) : string :=
  String.substring (Z.to_nat i) (String.length s - Z.to_nat i) s.

(** Does the string hold the character? *)
Fixpoint mem (c : ascii) (s : string) : bool :=
  match s with
  | EmptyString => false
  | String a s' => Ascii.eqb a c || mem c s'
  end.

End Str.

(** ** os.path *)

Module OsPath.

(** [posixpath.join(a, b)] for two arguments. *)
Definition join (a b : string) : string :=
  if Str.startswith "/" b then b
  else if String.eqb a "" || Str.endswith "/" a then a +:+ b
  else a +:+ "/" +:+ b.

(** The loop of [genericpath._splitext] that skips the leading dots of the
    file name: [n] bounds the iterations left ([dotIndex - filenameIndex]). *)
Fixpoint splitext_loop (p : string) (filenameIndex dotIndex : Z) (n : nat)
  : string * string :=
  match n with
  | O => (p, "")
  | S n' =>
      if negb (String.eqb (Str.char_at p filenameIndex) ".")
      then (Str.take dotIndex p, Str.drop dotIndex p)
      else splitext_loop p (filenameIndex + 1) dotIndex n'
  end.

(** [posixpath.splitext(p)] *)
Definition splitext (p : string) : string * string :=
  let sepIndex := Str.rfind "/" p in
  let dotIndex := Str.rfind "." p in
  if sepIndex <? dotIndex
  then splitext_loop p (sepIndex + 1) dotIndex (Z.to_nat (dotIndex - (sepIndex + 1)))
  else (p, "").

End OsPath.

(** ** class SymArgs *)

Record SymArgs := mkSymArgs {
  sym_args_list : list (list Z);
  sym_files : option (Z * Z);
  sym_stdin : option Z
}.

Definition SymArgs_argument_list (self : SymArgs) : list string :=
  let args :=
    map (fun sym_args => "--sym-args " +:+ Str.join " " (map Str.of_Z sym_args))
        (sym_args_list self) in
  let args :=
    match sym_files self with
    | Some (n, size) =>
        args ++ ["--sym-files " +:+ Str.of_Z n +:+ " " +:+ Str.of_Z size]
    | None => args
    end in
  let args :=
    match sym_stdin self with
    | Some n => args ++ ["--sym-stdin " +:+ Str.of_Z n]
    | None => args
    end in
  args ++ ["--sym-stdout"].

(** ** collections.defaultdict, as [KLEE.SYM_ARGS] uses it *)

Record defaultdict := mkDefaultDict {
  default_factory : unit -> SymArgs;
  items : gmap string SymArgs
}.

(** [d[key]]: a missing key is filled with [default_factory()] first. *)
Definition defaultdict_getitem (key : string) (d : defaultdict) : SymArgs * defaultdict :=
  match items d !! key with
  | Some v => (v, d)
  | None =>
      let v := default_factory d () in
      (v, mkDefaultDict (default_factory d) (<[key := v]> (items d)))
  end.

(** ** The file system

    A path is the list of its components below the root; the root itself
    is the empty list and always a directory.  Paths are resolved
    lexically: [split_path] cuts a path string at every slash and drops
    empty components, so relative paths are read from the root, and
    ".", ".." and symbolic links are outside the model.  A regular file
    holds its text. *)

Inductive node :=
| File (text : string)
| Dir.

Inductive exn :=
| FileExistsError
| FileNotFoundError
| NotADirectoryError
| IsADirectoryError
| OSError
| OverflowError
| TimeoutExpired
| Blocked.   (* not an exception: the call never returns *)

#[global] Instance exn_eq_dec : EqDecision exn.
Proof. solve_decision. Defined.

Inductive result (A : Type) :=
| Ok (a : A)
| Raise (e : exn).
Arguments Ok {A} a.
Arguments Raise {A} e.

Module FS.

(** Cut [s] at slashes; [cur] is the component being read. *)
Fixpoint split_path_go (s : string) (cur : string) : list string :=
  match s with
  | EmptyString => if String.eqb cur "" then [] else [cur]
  | String c s' =>
      if Ascii.eqb c "/"
      then (if String.eqb cur "" then [] else [cur]) ++ split_path_go s' ""
      else split_path_go s' (cur +:+ String c "")
  end.

Definition split_path (s : string) : list string := split_path_go s "".

(** What the path names, if anything. *)
Definition node_at (fs : gmap (list string) node) (p : list string) : option node :=
  match p with
  | [] => Some Dir
  | _ => fs !! p
  end.

Definition exists_ (fs : gmap (list string) node) (p : list string) : bool :=
  match node_at fs p with Some _ => true | None => false end.

Definition isdir (fs : gmap (list string) node) (p : list string) : bool :=
  match node_at fs p with Some Dir => true | _ => false end.

Definition parent (p : list string) : list string := removelast p.

(** Is [p] the path [d] or a path below it? *)
Definition under (d p : list string) : bool := bool_decide (d `prefix_of` p).

(** [os.mkdir(p)]: the parent is resolved first, then the name. *)
Definition mkdir (p : list string) (fs : gmap (list string) node)
  : result (gmap (list string) node) :=
  match p with
  | [] => Raise FileExistsError
  | _ =>
      match node_at fs (parent p) with
      | None => Raise FileNotFoundError
      | Some (File _) => Raise NotADirectoryError
      | Some Dir =>
          match fs !! p with
          | Some _ => Raise FileExistsError
          | None => Ok (<[p := Dir]> fs)
          end
      end
  end.

(** [os.makedirs(name, exist_ok=...)], by recursion on the reversed path
    [rp] (last component first), as the library recurses on
    [os.path.split(name)]. *)
Definition makedirs_finish (name : list string) (exist_ok : bool)
    (fs1 : gmap (list string) node) : result (gmap (list string) node) :=
  match mkdir name fs1 with
  | Ok fs2 => Ok fs2
  | Raise e => if negb exist_ok || negb (isdir fs1 name) then Raise e else Ok fs1
  end.

Fixpoint makedirs_rev (rp : list string) (exist_ok : bool)
    (fs : gmap (list string) node) : result (gmap (list string) node) :=
  let finish := makedirs_finish (rev rp) exist_ok in
  match rp with
  | [] => finish fs
  | _ :: rhead =>
      if negb (exists_ fs (rev rhead))
      then match makedirs_rev rhead exist_ok fs with
           | Ok fs1 => finish fs1
           | Raise FileExistsError => finish fs
           | Raise e => Raise e
           end
      else finish fs
  end.

Definition makedirs (p : list string) (exist_ok : bool)
    (fs : gmap (list string) node) : result (gmap (list string) node) :=
  makedirs_rev (rev p) exist_ok fs.

(** What [shutil.rmtree] leaves of the file system when it deletes the
    directory [p]: every entry that is not [p] or below it. *)
Definition remove_tree (p : list string) (fs : gmap (list string) node)
  : gmap (list string) node :=
  filter (fun kv => ¬ p `prefix_of` kv.1) fs.

(** [shutil.rmtree(p, ignore_errors=...)].  The result is the exception
    raised, if any, and the file system left behind.  Deleting the root
    empties it and then fails on the root itself. *)
Definition rmtree (p : list string) (ignore_errors : bool)
    (fs : gmap (list string) node) : option exn * gmap (list string) node :=
  let err e := if ignore_errors then None else Some e in
  match p with
  | [] => (err OSError, remove_tree [] fs)
  | _ =>
      match fs !! p with
      | None => (err FileNotFoundError, fs)
      | Some (File _) => (err NotADirectoryError, fs)
      | Some Dir => (None, remove_tree p fs)
      end
  end.

(** [open(p)] for reading, then reading the whole text. *)
Definition read_text (p : list string) (fs : gmap (list string) node) : result string :=
  match node_at fs p with
  | None => Raise FileNotFoundError
  | Some Dir => Raise IsADirectoryError
  | Some (File text) => Ok text
  end.

(** [open(p, 'w')]: creates the file or truncates it. *)
Definition open_w (p : list string) (fs : gmap (list string) node)
  : result (gmap (list string) node) :=
  match p with
  | [] => Raise IsADirectoryError
  | _ =>
      match node_at fs (parent p) with
      | None => Raise FileNotFoundError
      | Some (File _) => Raise NotADirectoryError
      | Some Dir =>
          match fs !! p with
          | Some Dir => Raise IsADirectoryError
          | _ => Ok (<[p := File ""]> fs)
          end
      end
  end.

(** Appending text to a file that is open for writing. *)
Definition append_text (p : list string) (s : string) (fs : gmap (list string) node)
  : gmap (list string) node :=
  match fs !! p with
  | Some (File text) => <[p := File (text +:+ s)]> fs
  | _ => fs
  end.

(** The entries directly inside the directory [d], as names. *)
Definition listdir (d : list string) (fs : gmap (list string) node) : list string :=
  omap (fun kv => match last kv.1 with
                  | Some name => if bool_decide (parent kv.1 = d) then Some name else None
                  | None => None
                  end) (map_to_list fs).

(** The lines of a text as a file object yields them in text mode:
    a line ends after a line feed; a carriage return, alone or followed by
    a line feed, ends the line too and is read as one line feed. *)
Fixpoint readlines_go (s : string) (cur : string) : list string :=
  match s with
  | EmptyString => if String.eqb cur "" then [] else [cur]
  | String c s' =>
      if Ascii.eqb c "010" then (cur +:+ String "010" "") :: readlines_go s' ""
      else if Ascii.eqb c "013" then
        match s' with
        | String c' s'' =>
            if Ascii.eqb c' "010"
            then (cur +:+ String "010" "") :: readlines_go s'' ""
            else (cur +:+ String "010" "") :: readlines_go s' ""
        | EmptyString => [cur +:+ String "010" ""]
        end
      else readlines_go s' (cur +:+ String c "")
  end.

Definition readlines (s : string) : list string := readlines_go s "".

End FS.

(** ** The world the harness acts on *)

(** What an observer of the harness sees, in order. *)
Inductive event :=
| EvPrint (line : string)             (* [log(...)] and [print(...)] *)
| EvPopen (command cwd : string)      (* [subprocess.Popen(command, shell=True, cwd=cwd)] *)
| EvKill                              (* [proc.kill()] *)
| EvReaped (returncode : Z)           (* a [proc.wait] that found the child gone *)
| EvKleeStats (dir : string)          (* [subprocess.run([BINARY_KLEE_STATS, dir])] *)
| EvOpenRead (file : string)          (* [open(file)] *)
| EvOpenWrite (file : string).        (* [open(file, 'w')] *)

(** A child process, seen from outside: when it ends by itself, if ever,
    with which code, what it has made of the file system [t] seconds after
    its start, and how long it takes to be gone once it was killed. *)
Record process := mkProcess {
  exits_after : option Z;
  exit_status : Z;
  fs_after : Z -> gmap (list string) node;
  dies_after_kill : Z
}.

Record world := mkWorld {
  w_fs : gmap (list string) node;
  w_SYM_ARGS : defaultdict;          (* the class attribute [KLEE.SYM_ARGS] *)
  w_BENCHMARKS_PATH : string;        (* the class attribute [KLEE.BENCHMARKS_PATH] *)
  w_clock : Z;                       (* seconds *)
  w_events : list (Z * event)        (* each with the time it happened *)
}.

Definition set_fs (fs : gmap (list string) node) (w : world) : world :=
  mkWorld fs (w_SYM_ARGS w) (w_BENCHMARKS_PATH w) (w_clock w) (w_events w).
Definition set_SYM_ARGS (d : defaultdict) (w : world) : world :=
  mkWorld (w_fs w) d (w_BENCHMARKS_PATH w) (w_clock w) (w_events w).
Definition set_BENCHMARKS_PATH (s : string) (w : world) : world :=
  mkWorld (w_fs w) (w_SYM_ARGS w) s (w_clock w) (w_events w).
Definition set_clock (t : Z) (w : world) : world :=
  mkWorld (w_fs w) (w_SYM_ARGS w) (w_BENCHMARKS_PATH w) t (w_events w).
Definition add_event (e : event) (w : world) : world :=
  mkWorld (w_fs w) (w_SYM_ARGS w) (w_BENCHMARKS_PATH w) (w_clock w)
          (w_events w ++ [(w_clock w, e)]).

(** A computation changes the world and returns a value or raises; the
    world it leaves is kept in both cases. *)
Definition M (A : Type) : Type := world -> result A * world.

#[global] Instance M_ret : MRet M := fun A a w => (Ok a, w).
#[global] Instance M_bind : MBind M := fun A B f m w =>
  match m w with
  | (Ok a, w') => f a w'
  | (Raise e, w') => (Raise e, w')
  end.

Definition raise {A} (e : exn) : M A := fun w => (Raise e, w).

(** [try: body / except e: handler] *)
Definition try_except {A} (body : M A) (e : exn) (handler : M A) : M A := fun w =>
  match body w with
  | (Raise e', w') => if bool_decide (e' = e) then handler w' else (Raise e', w')
  | r => r
  end.

Definition emit (e : event) : M unit := fun w => (Ok tt, add_event e w).

(** [log(line)]: [print] with [flush=True]. *)
Definition log (line : string) : M unit := emit (EvPrint line).

Definition lift_fs (f : gmap (list string) node -> result (gmap (list string) node))
  : M unit := fun w =>
  match f (w_fs w) with
  | Ok fs' => (Ok tt, set_fs fs' w)
  | Raise e => (Raise e, w)
  end.

Definition os_makedirs (name : string) (exist_ok : bool) : M unit :=
  lift_fs (FS.makedirs (FS.split_path name) exist_ok).

Definition shutil_rmtree (name : string) (ignore_errors : bool) : M unit := fun w =>
  let '(e, fs') := FS.rmtree (FS.split_path name) ignore_errors (w_fs w) in
  (match e with Some e => Raise e | None => Ok tt end, set_fs fs' w).

Definition os_path_exists (name : string) : M bool := fun w =>
  (Ok (FS.exists_ (w_fs w) (FS.split_path name)), w).

(** [with open(file) as f: lines = f.readlines()] *)
Definition open_readlines (file : string) : M (list string) := fun w =>
  let w' := add_event (EvOpenRead file) w in
  match FS.read_text (FS.split_path file) (w_fs w) with
  | Ok text => (Ok (FS.readlines text), w')
  | Raise e => (Raise e, w')
  end.

(** [open(file, 'w')] *)
Definition open_write (file : string) : M unit :=
  emit (EvOpenWrite file);; lift_fs (FS.open_w (FS.split_path file)).

(** [out.writelines(lines)] on a file opened by [open_write]. *)
Definition writelines (file : string) (lines : list string) : M unit := fun w =>
  (Ok tt, set_fs (FS.append_text (FS.split_path file) (Str.join "" lines) (w_fs w)) w).

(** ** datetime, as far as [print_estimated_time_left] uses it *)

Module Datetime.

(** The proleptic ordinal of [datetime.max.date()]; that of
    [datetime.min] is 1. *)
Definition MAXORDINAL : Z := 3652059.

Definition pad2 (n : Z) : string :=
  if n <? 10 then "0" +:+ Str.of_Z n else Str.of_Z n.

(** [(datetime.min + timedelta(seconds=seconds))
       .strftime("%H hours, %M minutes, %S seconds")]:
    the sum is day [1 + seconds // 86400] at second [seconds % 86400] of the
    day, and is an [OverflowError] unless the day is one of
    [1 .. MAXORDINAL]; [strftime] prints the time of the day only. *)
Definition min_plus_seconds_strftime (seconds : Z) : result string :=
  let days := 1 + seconds / 86400 in
  let rem := seconds mod 86400 in
  if (0 <? days) && (days <=? MAXORDINAL)
  then Ok (pad2 (rem / 3600) +:+ " hours, " +:+
           pad2 (rem mod 3600 / 60) +:+ " minutes, " +:+
           pad2 (rem mod 3600 mod 60) +:+ " seconds")
  else Raise OverflowError.

End Datetime.

(** ** os.DirEntry, as far as the harness reads it *)

Module DirEntry.
Record t := mk { path : string; name : string }.
End DirEntry.

(** ** class KLEE *)

Record KLEE := mkKLEE { name : string; flags : list string }.

Definition KLEE_PATH := "/home/columpio/klee".
Definition KLEE_MAX_SOLVER_TIME := "15s".
Definition KLEE_MAX_TIME : Z := 60.
Definition KLEE_WAIT_UNTIL_KILL_SCALE : Z := 2.
Definition KLEE_BENCHMARKS_PATH := "/tmp".
Definition KLEE_SANDBOX := "/tmp/sandbox".
Definition KLEE_BUILD_FOLDER := "build-mydev".
Definition KLEE_BINARY_KLEE :=
  OsPath.join (OsPath.join (OsPath.join KLEE_PATH KLEE_BUILD_FOLDER) "bin") "klee".
Definition KLEE_BINARY_KLEE_STATS :=
  OsPath.join (OsPath.join (OsPath.join KLEE_PATH KLEE_BUILD_FOLDER) "bin") "klee-stats".
Definition KLEE_KLEE_STATS_DIFF := "klee_stats_diff".

Definition default_SymArgs : SymArgs :=
  mkSymArgs [[0; 1; 10]; [0; 2; 2]] (Some (1, 8)) (Some 8).

(** The table as the class body builds it. *)
Definition KLEE_SYM_ARGS : defaultdict :=
  mkDefaultDict (fun _ => default_SymArgs)
    (list_to_map
       [ ("dd", mkSymArgs [[0; 3; 10]] (Some (1, 8)) (Some 8));
         ("dircolors", mkSymArgs [[0; 3; 10]] (Some (2, 12)) (Some 12));
         ("echo", mkSymArgs [[0; 4; 300]] (Some (2, 30)) (Some 30));
         ("expr", mkSymArgs [[0; 1; 10]; [0; 3; 2]] None None);
         ("mknod", mkSymArgs [[0; 1; 10]; [0; 3; 2]] (Some (1, 8)) (Some 8));
         ("od", mkSymArgs [[0; 3; 10]] (Some (2, 12)) (Some 12));
         ("pathchk", mkSymArgs [[0; 1; 2]; [0; 1; 300]] (Some (1, 8)) (Some 8));
         ("printf", mkSymArgs [[0; 3; 10]] (Some (2, 12)) (Some 12)) ]).

(** [KLEE(name, flags=None)] *)
Definition KLEE_init (name : string) (flags : option (list string)) : KLEE :=
  mkKLEE name (match flags with None => [] | Some flags => flags end).

Definition KLEE_output_base_dir (benchmark_path : string) : string :=
  benchmark_path +:+ "-klee-out".

Definition KLEE_output_dir (self : KLEE) (output_base_dir : string) : string :=
  OsPath.join output_base_dir (name self).

(** [KLEE.SYM_ARGS[tool_name]] *)
Definition SYM_ARGS_getitem (tool_name : string) : M SymArgs := fun w =>
  let '(v, d) := defaultdict_getitem tool_name (w_SYM_ARGS w) in
  (Ok v, set_SYM_ARGS d w).

Definition KLEE_sym_flags (self : KLEE) (benchmark_name : string) : M (list string) :=
  let tool_name := (OsPath.splitext benchmark_name).1 in
  profile ← SYM_ARGS_getitem tool_name;
  mret (SymArgs_argument_list profile).

(** The list [basic_flags] of [KLEE.command]. *)
Definition basic_flags (benchmarks_path output_dir : string) : list string :=
  [ KLEE_BINARY_KLEE;
    "--simplify-sym-indices";
    "--max-memory=1000";
    "--optimize";
    "--libc=uclibc";
    "--posix-runtime";
    "--external-calls=all";
    "--only-output-states-covering-new";
    "--env-file=" +:+ OsPath.join benchmarks_path "test.env";
    "--run-in-dir=" +:+ KLEE_SANDBOX;
    "--max-sym-array-size=4096";
    "--max-solver-time=" +:+ KLEE_MAX_SOLVER_TIME;
    "--max-time=" +:+ Str.of_Z KLEE_MAX_TIME;
    "--watchdog";
    "--max-static-fork-pct=1";
    "--max-static-solve-pct=1";
    "--max-static-cpfork-pct=1";
    "--switch-type=internal";
    "--output-dir=" +:+ output_dir ].

Definition KLEE_command (self : KLEE) (benchmark_entry : DirEntry.t) : M (list string) :=
  let output_base_dir := KLEE_output_base_dir (DirEntry.path benchmark_entry) in
  let output_dir := KLEE_output_dir self output_base_dir in
  os_makedirs output_dir true;;
  shutil_rmtree output_dir false;;
  shutil_rmtree KLEE_SANDBOX true;;
  os_makedirs KLEE_SANDBOX false;;
  benchmarks_path ← (fun w => (Ok (w_BENCHMARKS_PATH w), w));
  sym ← KLEE_sym_flags self (DirEntry.name benchmark_entry);
  mret (basic_flags benchmarks_path output_dir ++ flags self
          ++ [DirEntry.path benchmark_entry] ++ sym).

(** ** print_estimated_time_left *)

Definition human_readable_time (seconds : Z) : M string := fun w =>
  (Datetime.min_plus_seconds_strftime seconds, w).

Definition NUMBER_OF_COMPARED_KLEES : Z := 2.

Definition print_estimated_time_left (benchmarks_left : Z) : M unit :=
  let estimated_time_left := benchmarks_left * KLEE_MAX_TIME * NUMBER_OF_COMPARED_KLEES in
  let max_time_left := estimated_time_left * KLEE_WAIT_UNTIL_KILL_SCALE in
  estimated_time_left ← human_readable_time estimated_time_left;
  max_time_left ← human_readable_time max_time_left;
  emit (EvPrint ("ESTIMATED TIME LEFT: " +:+ estimated_time_left +:+
                 " (no more than " +:+ max_time_left +:+ ")")).

(** ** The harness, over the programs it calls *)

Section Harness.

(** [sh -c command] started in [cwd] on the file system [fs]. *)
Variable shell : string -> string -> gmap (list string) node -> process.

(** The lines of the standard output of [klee-stats dir] on [fs], cut by
    [splitlines(keepends=True)]. *)
Variable klee_stats : string -> gmap (list string) node -> list string.

(** [difflib.unified_diff(a, b, fromfile=, tofile=, n=)], as the list of
    the strings it yields. *)
Variable unified_diff : list string -> list string -> string -> string -> Z -> list string.

(** *** subprocess.Popen *)

Record Popen := mkPopen {
  child : process;
  started : Z;
  killed : option Z     (* when [kill()] was called, if it was *)
}.

(** [subprocess.Popen(command, shell=True, ..., cwd=cwd)] *)
Definition subprocess_Popen (command cwd : string) : M Popen := fun w =>
  match FS.node_at (w_fs w) (FS.split_path cwd) with
  | None => (Raise FileNotFoundError, w)
  | Some (File _) => (Raise NotADirectoryError, w)
  | Some Dir =>
      (Ok (mkPopen (shell command cwd (w_fs w)) (w_clock w) None),
       add_event (EvPopen command cwd) w)
  end.

(** When the child is gone and with which return code: by itself, or
    [dies_after_kill] seconds after a kill, whichever comes first. *)
Definition Popen_end (proc : Popen) : option (Z * Z) :=
  let natural := (fun d => (started proc + d, exit_status (child proc))) <$> exits_after (child proc) in
  let forced := (fun t => (t + dies_after_kill (child proc), -9)) <$> killed proc in
  match natural, forced with
  | Some n, Some f => if n.1 <=? f.1 then Some n else Some f
  | Some n, None => Some n
  | None, f => f
  end.

(** The world at time [t], the child having run until then. *)
Definition child_ran_until (proc : Popen) (t : Z) (w : world) : world :=
  set_fs (fs_after (child proc) (t - started proc)) (set_clock t w).

(** [proc.wait(timeout=timeout)]; [None] waits without bound. *)
Definition Popen_wait (proc : Popen) (timeout : option Z) : M Z := fun w =>
  match Popen_end proc, timeout with
  | Some (t_end, code), None =>
      let t := Z.max (w_clock w) t_end in
      (Ok code, add_event (EvReaped code) (child_ran_until proc t w))
  | Some (t_end, code), Some limit =>
      if t_end <=? w_clock w + limit
      then let t := Z.max (w_clock w) t_end in
           (Ok code, add_event (EvReaped code) (child_ran_until proc t w))
      else (Raise TimeoutExpired, child_ran_until proc (w_clock w + limit) w)
  | None, Some limit =>
      (Raise TimeoutExpired, child_ran_until proc (w_clock w + limit) w)
  | None, None => (Raise Blocked, w)
  end.

(** [proc.kill()]; the handle remembers it. *)
Definition Popen_kill (proc : Popen) : M Popen := fun w =>
  (Ok (mkPopen (child proc) (started proc) (Some (w_clock w))), add_event EvKill w).

(** *** KLEE.run *)

Definition KLEE_run (self : KLEE) (benchmark_entry : DirEntry.t) : M unit :=
  tokens ← KLEE_command self benchmark_entry;
  let command := Str.join " " tokens in
  log ("Running " +:+ command);;
  cwd ← (fun w => (Ok (w_BENCHMARKS_PATH w), w));
  proc ← subprocess_Popen command cwd;
  try_except
    (Popen_wait proc (Some (KLEE_MAX_TIME * KLEE_WAIT_UNTIL_KILL_SCALE));;
     log ("Process finished under " +:+ Str.of_Z KLEE_WAIT_UNTIL_KILL_SCALE +:+ " * time limit"))
    TimeoutExpired
    (log ("Process not finished under " +:+ Str.of_Z KLEE_WAIT_UNTIL_KILL_SCALE +:+
          " * time limit, so killing it");;
     proc ← Popen_kill proc;
     Popen_wait proc None;;
     mret tt).

(** *** class Differ and its two subclasses *)

Definition Differ_DIFF_EXT := ".patch".

(** The abstract method: what a subclass has to provide. *)
Record Differ := mkDiffer {
  read_originals :
    string -> string -> string -> M (list string * list string * string * string * string)
}.

Definition Differ_save_diff (self : Differ) (output_base_dir out1 out2 : string) : M unit :=
  '(info1_lines, info2_lines, info1, info2, info_out) ←
     read_originals self output_base_dir out1 out2;
  let diff := unified_diff info1_lines info2_lines info1 info2 3 in
  open_write (info_out +:+ Differ_DIFF_EXT);;
  writelines (info_out +:+ Differ_DIFF_EXT) diff.

Definition InfoFilesDiffer_read_originals (output_base_dir out1 out2 : string)
  : M (list string * list string * string * string * string) :=
  let info_out := OsPath.join output_base_dir "info" in
  let info1 := OsPath.join out1 "info" in
  let info2 := OsPath.join out2 "info" in
  info1_lines ← open_readlines info1;
  info2_lines ← open_readlines info2;
  mret (info1_lines, info2_lines, info1, info2, info_out).

Definition InfoFilesDiffer : Differ := mkDiffer InfoFilesDiffer_read_originals.

Definition KleeStatsDiffer_call_klee_stats_on (path : string) : M (list string) := fun w =>
  (Ok (klee_stats path (w_fs w)), add_event (EvKleeStats path) w).

Definition KleeStatsDiffer_read_originals (output_base_dir out1 out2 : string)
  : M (list string * list string * string * string * string) :=
  let info_out := OsPath.join output_base_dir KLEE_KLEE_STATS_DIFF in
  info1_lines ← KleeStatsDiffer_call_klee_stats_on out1;
  info2_lines ← KleeStatsDiffer_call_klee_stats_on out2;
  mret (info1_lines, info2_lines, "klee-stats " +:+ out1, "klee-stats " +:+ out2, info_out).

Definition KleeStatsDiffer : Differ := mkDiffer KleeStatsDiffer_read_originals.

(** *** class ResultComparator *)

Record ResultComparator := mkResultComparator {
  klee1 : KLEE;
  klee2 : KLEE;
  differ : Differ
}.

Definition ResultComparator_save_diff (self : ResultComparator)
    (benchmark_entry : DirEntry.t) : M unit :=
  let output_base_dir := KLEE_output_base_dir (DirEntry.path benchmark_entry) in
  let out1 := KLEE_output_dir (klee1 self) output_base_dir in
  let out2 := KLEE_output_dir (klee2 self) output_base_dir in
  Differ_save_diff (differ self) output_base_dir out1 out2.

(** *** The scheduler *)

Definition has_both_solutions (benchmark : DirEntry.t) : M bool :=
  os_path_exists
    (OsPath.join (KLEE_output_base_dir (DirEntry.path benchmark))
                 (KLEE_KLEE_STATS_DIFF +:+ Differ_DIFF_EXT)).

(** The body of the loop of [main] for the benchmark at index [i]. *)
Definition main_loop_body (bd_klee my_klee : KLEE) (result_comparator : ResultComparator)
    (benchmarks_len i : Z) (benchmark : DirEntry.t) : M unit :=
  done_already ← has_both_solutions benchmark;
  if done_already : bool then mret tt
  else
    print_estimated_time_left (benchmarks_len - i);;
    KLEE_run bd_klee benchmark;;
    KLEE_run my_klee benchmark;;
    ResultComparator_save_diff result_comparator benchmark.

(** [for i, benchmark in enumerate(benchmarks)], from index [i] on. *)
Fixpoint main_loop_from (bd_klee my_klee : KLEE) (result_comparator : ResultComparator)
    (benchmarks_len i : Z) (benchmarks : list DirEntry.t) : M unit :=
  match benchmarks with
  | [] => mret tt
  | benchmark :: rest =>
      main_loop_body bd_klee my_klee result_comparator benchmarks_len i benchmark;;
      main_loop_from bd_klee my_klee result_comparator benchmarks_len (i + 1) rest
  end.

(** Lines 187 to 194 of the source: one pass of the scheduler over the
    corpus, with the two configurations and the comparator it is given. *)
Definition main_loop (bd_klee my_klee : KLEE) (result_comparator : ResultComparator)
    (benchmarks : list DirEntry.t) : M unit :=
  main_loop_from bd_klee my_klee result_comparator (Z.of_nat (length benchmarks)) 0 benchmarks.

(** [os.scandir(dir)], in the order of the file system map. *)
Definition os_scandir (dir : string) : M (list DirEntry.t) := fun w =>
  match FS.node_at (w_fs w) (FS.split_path dir) with
  | None => (Raise FileNotFoundError, w)
  | Some (File _) => (Raise NotADirectoryError, w)
  | Some Dir =>
      (Ok (map (fun entry_name => DirEntry.mk (OsPath.join dir entry_name) entry_name)
               (FS.listdir (FS.split_path dir) (w_fs w))), w)
  end.

(** [main()].  The text written through [LOGGER] is kept in the events,
    not in the node of the log file, so that redirecting [sys.stdout] and
    closing [LOGGER] change nothing here. *)
Definition main : M unit :=
  (fun w => (Ok tt, set_BENCHMARKS_PATH "/home/columpio/coreutils/obj-llvm/src" w));;
  benchmarks_path ← (fun w => (Ok (w_BENCHMARKS_PATH w), w));
  open_write (OsPath.join benchmarks_path "run-exps.log");;
  entries ← os_scandir benchmarks_path;
  let benchmarks :=
    List.filter (fun entry => negb (Str.startswith "." (DirEntry.name entry))
                              && Str.endswith ".bc" (DirEntry.name entry)) entries in
  let bd_klee := KLEE_init "No___Blacklist" (Some ["--disable-blacklist"]) in
  let my_klee := KLEE_init "With_Blacklist" None in
  let result_comparator := mkResultComparator bd_klee my_klee KleeStatsDiffer in
  main_loop bd_klee my_klee result_comparator benchmarks.

End Harness.

(** ** The shell's field splitting

    [KLEE.run] hands one string to [sh -c].  For a command line without
    quoting or expansion characters the shell cuts it into fields at
    blanks and starts the first field with all fields as its argument
    vector.  This is the only part of the shell that is modelled. *)

Module Sh.

Definition is_blank (c : ascii) : bool :=
  Ascii.eqb c " " || Ascii.eqb c "009" || Ascii.eqb c "010".

Fixpoint fields_go (s : string) (cur : string) : list string :=
  match s with
  | EmptyString => if String.eqb cur "" then [] else [cur]
  | String c s' =>
      if is_blank c
      then (if String.eqb cur "" then [] else [cur]) ++ fields_go s' ""
      else fields_go s' (cur +:+ String c "")
  end.

(** The argument vector of the command the shell starts. *)
Definition argv (command : string) : list string := fields_go command "".


End Sh.

(** ** difflib

    The part of CPython 3.11's [difflib] behind [unified_diff], for
    sequences of strings and without a junk predicate, used to run the
    harness in the examples.  Indices are [Z] as in the library; the loops
    that the library runs until a condition fails carry a bound on their
    iterations. *)

Module Difflib.

Definition nth_line (l : list string) (i : Z) : string :=
  if i <? 0 then "" else nth (Z.to_nat i) l "".

(** [l[i1:i2]] for [0 <= i1]. *)
Definition slice (l : list string) (i1 i2 : Z) : list string :=
  firstn (Z.to_nat (i2 - i1)) (skipn (Z.to_nat i1) l).

(** The indices of [elt] in [b], ascending, from index [j] on. *)
Fixpoint indices_from (elt : string) (b : list string) (j : Z) : list Z :=
  match b with
  | [] => []
  | x :: b' =>
      if String.eqb x elt then j :: indices_from elt b' (j + 1)
      else indices_from elt b' (j + 1)
  end.

(** [b2j.get(elt, [])] after [__chain_b]: with 200 elements or more, an
    element that occurs more than [n // 100 + 1] times is purged. *)
Definition b2j (b : list string) (elt : string) : list Z :=
  let idxs := indices_from elt b 0 in
  let n := Z.of_nat (length b) in
  if (200 <=? n) && (n / 100 + 1 <? Z.of_nat (length idxs)) then [] else idxs.

(** [j2len.get(j, 0)] for a dictionary kept as a list of pairs. *)
Fixpoint j2len_get (j2len : list (Z * Z)) (j : Z) : Z :=
  match j2len with
  | [] => 0
  | (j', k) :: rest => if j' =? j then k else j2len_get rest j
  end.

Record best := mkBest { besti : Z; bestj : Z; bestsize : Z }.

(** The inner loop of [find_longest_match], over the indices [js] of
    [a[i]] in [b]. *)
Fixpoint flm_inner (i blo bhi : Z) (j2len : list (Z * Z)) (js : list Z)
    (newj2len : list (Z * Z)) (bst : best) : list (Z * Z) * best :=
  match js with
  | [] => (newj2len, bst)
  | j :: js' =>
      if j <? blo then flm_inner i blo bhi j2len js' newj2len bst
      else if bhi <=? j then (newj2len, bst)
      else
        let k := j2len_get j2len (j - 1) + 1 in
        let newj2len := (j, k) :: newj2len in
        let bst := if bestsize bst <? k then mkBest (i - k + 1) (j - k + 1) k else bst in
        flm_inner i blo bhi j2len js' newj2len bst
  end.

(** The outer loop, for [count] values of [i] from [i] on. *)
Fixpoint flm_outer (a b : list string) (blo bhi : Z) (i : Z) (count : nat)
    (j2len : list (Z * Z)) (bst : best) : best :=
  match count with
  | O => bst
  | S count' =>
      let '(newj2len, bst) :=
        flm_inner i blo bhi j2len (b2j b (nth_line a i)) [] bst in
      flm_outer a b blo bhi (i + 1) count' newj2len bst
  end.

(** The loop that extends the match to the left. *)
Fixpoint extend_left (a b : list string) (alo blo : Z) (fuel : nat) (bst : best) : best :=
  match fuel with
  | O => bst
  | S fuel' =>
      if (alo <? besti bst) && (blo <? bestj bst)
         && String.eqb (nth_line a (besti bst - 1)) (nth_line b (bestj bst - 1))
      then extend_left a b alo blo fuel'
             (mkBest (besti bst - 1) (bestj bst - 1) (bestsize bst + 1))
      else bst
  end.

(** The loop that extends the match to the right. *)
Fixpoint extend_right (a b : list string) (ahi bhi : Z) (fuel : nat) (bst : best) : best :=
  match fuel with
  | O => bst
  | S fuel' =>
      if (besti bst + bestsize bst <? ahi) && (bestj bst + bestsize bst <? bhi)
         && String.eqb (nth_line a (besti bst + bestsize bst))
                       (nth_line b (bestj bst + bestsize bst))
      then extend_right a b ahi bhi fuel'
             (mkBest (besti bst) (bestj bst) (bestsize bst + 1))
      else bst
  end.

(** [find_longest_match(alo, ahi, blo, bhi)]; the two loops over junk do
    nothing, there being no junk. *)
Definition find_longest_match (a b : list string) (alo ahi blo bhi : Z) : best :=
  let bst := flm_outer a b blo bhi alo (Z.to_nat (ahi - alo)) [] (mkBest alo blo 0) in
  let bst := extend_left a b alo blo (length a) bst in
  extend_right a b ahi bhi (length a) bst.

(** The loop of [get_matching_blocks]; the head of [queue] is its last
    element in the library. *)
Fixpoint matching_loop (a b : list string) (fuel : nat)
    (queue : list (Z * Z * Z * Z)) (matching_blocks : list (Z * Z * Z))
  : list (Z * Z * Z) :=
  match fuel with
  | O => matching_blocks
  | S fuel' =>
      match queue with
      | [] => matching_blocks
      | (alo, ahi, blo, bhi) :: queue =>
          let x := find_longest_match a b alo ahi blo bhi in
          let '(i, j, k) := (besti x, bestj x, bestsize x) in
          if k =? 0 then matching_loop a b fuel' queue matching_blocks
          else
            let matching_blocks := matching_blocks ++ [(i, j, k)] in
            let queue := if (alo <? i) && (blo <? j) then (alo, i, blo, j) :: queue else queue in
            let queue := if (i + k <? ahi) && (j + k <? bhi)
                         then (i + k, ahi, j + k, bhi) :: queue else queue in
            matching_loop a b fuel' queue matching_blocks
      end
  end.

(** The order of tuples. *)
Definition block_leb (x y : Z * Z * Z) : bool :=
  let '(i1, j1, k1) := x in
  let '(i2, j2, k2) := y in
  (i1 <? i2) || ((i1 =? i2) && ((j1 <? j2) || ((j1 =? j2) && (k1 <=? k2)))).

Fixpoint insert_block (x : Z * Z * Z) (l : list (Z * Z * Z)) : list (Z * Z * Z) :=
  match l with
  | [] => [x]
  | y :: l' => if block_leb x y then x :: l else y :: insert_block x l'
  end.

Definition sort_blocks (l : list (Z * Z * Z)) : list (Z * Z * Z) :=
  fold_right insert_block [] l.

(** The loop that merges adjacent blocks; [(i1, j1, k1)] is the block to
    compare against. *)
Fixpoint collapse (blocks : list (Z * Z * Z)) (i1 j1 k1 : Z) : list (Z * Z * Z) :=
  match blocks with
  | [] => if k1 =? 0 then [] else [(i1, j1, k1)]
  | (i2, j2, k2) :: rest =>
      if (i1 + k1 =? i2) && (j1 + k1 =? j2) then collapse rest i1 j1 (k1 + k2)
      else (if k1 =? 0 then [] else [(i1, j1, k1)]) ++ collapse rest i2 j2 k2
  end.

Definition get_matching_blocks (a b : list string) : list (Z * Z * Z) :=
  let la := Z.of_nat (length a) in
  let lb := Z.of_nat (length b) in
  let blocks := matching_loop a b (2 * length a + 1) [(0, la, 0, lb)] [] in
  collapse (sort_blocks blocks) 0 0 0 ++ [(la, lb, 0)].

Inductive tag := Replace | Delete | Insert | Equal.

Definition opcode : Type := tag * Z * Z * Z * Z.

Fixpoint opcodes_loop (blocks : list (Z * Z * Z)) (i j : Z) : list opcode :=
  match blocks with
  | [] => []
  | (ai, bj, size) :: rest =>
      (if (i <? ai) && (j <? bj) then [(Replace, i, ai, j, bj)]
       else if i <? ai then [(Delete, i, ai, j, bj)]
       else if j <? bj then [(Insert, i, ai, j, bj)]
       else [])
      ++ (if size =? 0 then [] else [(Equal, ai, ai + size, bj, bj + size)])
      ++ opcodes_loop rest (ai + size) (bj + size)
  end.

Definition get_opcodes (a b : list string) : list opcode :=
  opcodes_loop (get_matching_blocks a b) 0 0.

Definition is_equal (t : tag) : bool := match t with Equal => true | _ => false end.

(** [codes[0] = ...] *)
Definition fix_first (n : Z) (codes : list opcode) : list opcode :=
  match codes with
  | (Equal, i1, i2, j1, j2) :: rest =>
      (Equal, Z.max i1 (i2 - n), i2, Z.max j1 (j2 - n), j2) :: rest
  | _ => codes
  end.

(** [codes[-1] = ...] *)
Fixpoint fix_last (n : Z) (codes : list opcode) : list opcode :=
  match codes with
  | [] => []
  | [(Equal, i1, i2, j1, j2)] => [(Equal, i1, Z.min i2 (i1 + n), j1, Z.min j2 (j1 + n))]
  | c :: rest => c :: fix_last n rest
  end.

(** The loop of [get_grouped_opcodes] with the test after it. *)
Fixpoint group_loop (n : Z) (codes : list opcode) (group : list opcode)
  : list (list opcode) :=
  match codes with
  | [] =>
      match group with
      | [] => []
      | [(Equal, _, _, _, _)] => []
      | _ => [group]
      end
  | (t, i1, i2, j1, j2) :: rest =>
      if is_equal t && (n + n <? i2 - i1)
      then (group ++ [(t, i1, Z.min i2 (i1 + n), j1, Z.min j2 (j1 + n))])
             :: group_loop n rest [(t, Z.max i1 (i2 - n), i2, Z.max j1 (j2 - n), j2)]
      else group_loop n rest (group ++ [(t, i1, i2, j1, j2)])
  end.

Definition get_grouped_opcodes (a b : list string) (n : Z) : list (list opcode) :=
  let codes := get_opcodes a b in
  let codes := match codes with [] => [(Equal, 0, 1, 0, 1)] | _ => codes end in
  group_loop n (fix_last n (fix_first n codes)) [].

Definition format_range_unified (start stop : Z) : string :=
  let beginning := start + 1 in
  let length := stop - start in
  if length =? 1 then Str.of_Z beginning
  else Str.of_Z (if length =? 0 then beginning - 1 else beginning)
       +:+ "," +:+ Str.of_Z length.

Definition newline : string := String "010" "".

Definition opcode_lines (a b : list string) (c : opcode) : list string :=
  let '(t, i1, i2, j1, j2) := c in
  match t with
  | Equal => map (fun line => " " +:+ line) (slice a i1 i2)
  | Replace => map (fun line => "-" +:+ line) (slice a i1 i2)
               ++ map (fun line => "+" +:+ line) (slice b j1 j2)
  | Delete => map (fun line => "-" +:+ line) (slice a i1 i2)
  | Insert => map (fun line => "+" +:+ line) (slice b j1 j2)
  end.

Definition group_lines (a b : list string) (group : list opcode) : list string :=
  match group, last group with
  | (_, first1, _, first3, _) :: _, Some (_, _, last2, _, last4) =>
      ("@@ -" +:+ format_range_unified first1 last2 +:+ " +" +:+
       format_range_unified first3 last4 +:+ " @@" +:+ newline)
      :: concat (map (opcode_lines a b) group)
  | _, _ => []
  end.

(** [unified_diff(a, b, fromfile=, tofile=, n=)] with the default line
    terminator and no dates, as the list of what it yields. *)
Definition unified_diff (a b : list string) (fromfile tofile : string) (n : Z)
  : list string :=
  match get_grouped_opcodes a b n with
  | [] => []
  | groups =>
      ("--- " +:+ fromfile +:+ newline) :: ("+++ " +:+ tofile +:+ newline)
      :: concat (map (group_lines a b) groups)
  end.

End Difflib.

(** ** Fixtures for the examples *)

Module Fixture.

(** A stand-in for KLEE: it runs for one second, then leaves a file [info]
    in a fresh output directory and exits with status 1.  The text of
    [info] tells the two configurations apart. *)
Definition output_dir_of (command : string) : option string :=
  (fun field => Str.drop 13 field) <$>
    List.find (Str.startswith "--output-dir=") (Sh.argv command).

Definition info_text (command : string) : string :=
  if bool_decide ("--disable-blacklist" ∈ Sh.argv command)
  then "one" +:+ String "010" ("two" +:+ String "010" ("three" +:+ String "010" ""))
  else "one" +:+ String "010" ("2" +:+ String "010" ("three" +:+ String "010" "")).

Definition klee_writes_info (command cwd : string) (fs : gmap (list string) node)
  : process :=
  mkProcess (Some 1) 1
    (fun t =>
       if t <? 1 then fs
       else match output_dir_of command with
            | Some d =>
                match FS.makedirs (FS.split_path d) false fs with
                | Ok fs' => <[FS.split_path (OsPath.join d "info") := File (info_text command)]> fs'
                | Raise _ => fs
                end
            | None => fs
            end)
    0.

(** A child that never ends by itself and writes nothing; once killed it
    is gone three seconds later. *)
Definition klee_hangs (command cwd : string) (fs : gmap (list string) node) : process :=
  mkProcess None 0 (fun _ => fs) 3.

(** A stand-in for klee-stats: one line naming the directory. *)
Definition klee_stats_stub (dir : string) (fs : gmap (list string) node) : list string :=
  ["stats of " +:+ dir +:+ String "010" ""].

Definition src_dir := "/home/columpio/coreutils/obj-llvm/src".

Definition foo : DirEntry.t := DirEntry.mk (OsPath.join src_dir "foo.bc") "foo.bc".

(** The corpus directory with one benchmark, and an old file in the sandbox. *)
Definition fs0 : gmap (list string) node :=
  list_to_map
    [ (["home"], Dir);
      (["home"; "columpio"], Dir);
      (["home"; "columpio"; "coreutils"], Dir);
      (["home"; "columpio"; "coreutils"; "obj-llvm"], Dir);
      (["home"; "columpio"; "coreutils"; "obj-llvm"; "src"], Dir);
      (["home"; "columpio"; "coreutils"; "obj-llvm"; "src"; "foo.bc"], File "BC");
      (["tmp"], Dir);
      (["tmp"; "sandbox"], Dir);
      (["tmp"; "sandbox"; "left-over"], File "old") ].

Definition w0 : world := mkWorld fs0 KLEE_SYM_ARGS src_dir 0 [].

Definition bd_klee : KLEE := KLEE_init "No___Blacklist" (Some ["--disable-blacklist"]).
Definition my_klee : KLEE := KLEE_init "With_Blacklist" None.

(** The two texts of [info_text] as lines, and their unified diff as
    worked out by hand. *)
Definition three_lines_a : list string :=
  ["one" +:+ String "010" ""; "two" +:+ String "010" ""; "three" +:+ String "010" ""].
Definition three_lines_b : list string :=
  ["one" +:+ String "010" ""; "2" +:+ String "010" ""; "three" +:+ String "010" ""].
Definition expected_patch : string :=
  Str.join ""
    [ "--- /home/columpio/coreutils/obj-llvm/src/foo.bc-klee-out/No___Blacklist/info"
        +:+ String "010" "";
      "+++ /home/columpio/coreutils/obj-llvm/src/foo.bc-klee-out/With_Blacklist/info"
        +:+ String "010" "";
      "@@ -1,3 +1,3 @@" +:+ String "010" "";
      " one" +:+ String "010" "";
      "-two" +:+ String "010" "";
      "+2" +:+ String "010" "";
      " three" +:+ String "010" "" ].

Definition base_dir : string := KLEE_output_base_dir (DirEntry.path foo).
Definition out1 : string := KLEE_output_dir bd_klee base_dir.
Definition out2 : string := KLEE_output_dir my_klee base_dir.

(** The world after both configurations ran on [foo] with the stand-in
    that writes [info]. *)
Definition w_two_infos : world :=
  (KLEE_run klee_writes_info my_klee foo (KLEE_run klee_writes_info bd_klee foo w0).2).2.

(** The scheduler of [main] with the raw-text comparison in place of the
    derived-statistics one. *)
Definition raw_text_pass : M unit :=
  main_loop klee_writes_info Difflib.unified_diff bd_klee my_klee
    (mkResultComparator bd_klee my_klee InfoFilesDiffer) [foo].

(** The comparator of [main], over the stand-in for klee-stats. *)
Definition stats_comparator : ResultComparator :=
  mkResultComparator bd_klee my_klee (KleeStatsDiffer klee_stats_stub).

(** The corpus directory with the output base directory of [foo] in it. *)
Definition fs_base : gmap (list string) node := <[FS.split_path base_dir := Dir]> fs0.


(** A regular file where the output directory of the first configuration
    should be. *)
Definition w_blocked : world :=
  mkWorld (<[FS.split_path out1 := File "BC"]> fs_base) KLEE_SYM_ARGS src_dir 0 [].

(** [foo] compared already, before [main] is called. *)
Definition w_done : world :=
  mkWorld (<[FS.split_path (OsPath.join base_dir "klee_stats_diff.patch") := File "old"]> fs_base)
          KLEE_SYM_ARGS KLEE_BENCHMARKS_PATH 0 [].

(** No corpus directory at all. *)
Definition w_bare : world :=
  mkWorld (list_to_map [(["tmp"], Dir)]) KLEE_SYM_ARGS src_dir 0 [].

End Fixture.

(** ** Vocabulary of the statements *)

(** The states [KLEE.SYM_ARGS] can be in: the table of the class body, and
    what lookups make of it. *)
Inductive table_reachable : defaultdict -> Prop :=
| reach_init : table_reachable KLEE_SYM_ARGS
| reach_getitem d key :
    table_reachable d -> table_reachable (defaultdict_getitem key d).2.

(** Nothing is at [d] or below it. *)
Definition absent (fs : gmap (list string) node) (d : list string) : Prop :=
  forall q, d `prefix_of` q -> fs !! q = None.


(** No regular file is at [q]: what [makedirs] needs of every path on the
    way to its target. *)
Definition not_a_file (fs : gmap (list string) node) (q : list string) : Prop :=
  forall text, fs !! q <> Some (File text).

(** The map is a tree: every entry has a name and lies in a directory. *)
Definition well_formed (fs : gmap (list string) node) : Prop :=
  map_Forall (fun p _ => p <> [] /\ FS.isdir fs (FS.parent p) = true) fs.


(** How many child processes [KLEE.run] has started so far. *)
Definition is_popen (e : Z * event) : bool :=
  match e.2 with EvPopen _ _ => true | _ => false end.

Definition tool_invocations (w : world) : nat :=
  length (List.filter is_popen (w_events w)).

(** A second of the day as [strftime] prints it in the time report. *)
Definition clock_face (second_of_day : Z) : string :=
  Datetime.pad2 (second_of_day / 3600) +:+ " hours, " +:+
  Datetime.pad2 (second_of_day mod 3600 / 60) +:+ " minutes, " +:+
  Datetime.pad2 (second_of_day mod 60) +:+ " seconds".



(** * Properties *)

(** Unfold the first bind of the goal. *)
Ltac bind_step := unfold mbind at 1; unfold M_bind at 1.

(** Settle that one concrete path is no prefix of another. *)
Ltac not_prefix :=
  let Hp := fresh "Hp" in
  intros Hp; apply (bool_decide_eq_true_2 _) in Hp; vm_compute in Hp; discriminate.

(** A computation whose value is known returns it with the world it
    leaves. *)
Lemma run_result {A} (m : M A) (w : world) (a : A) :
  (m w).1 = Ok a -> m w = (Ok a, (m w).2).
Proof. destruct (m w) as [r w']. cbn. intros ->. reflexivity. Qed.

(** ** The profile table *)

Lemma getitem_factory key d :
  default_factory (defaultdict_getitem key d).2 = default_factory d.
Proof. unfold defaultdict_getitem. destruct (items d !! key); reflexivity. Qed.

Lemma getitem_value key d :
  (defaultdict_getitem key d).1 =
  match items d !! key with Some v => v | None => default_factory d () end.
Proof. unfold defaultdict_getitem. destruct (items d !! key); reflexivity. Qed.

Lemma getitem_items key d :
  items (defaultdict_getitem key d).2 =
  match items d !! key with
  | Some _ => items d
  | None => <[key := default_factory d ()]> (items d)
  end.
Proof. unfold defaultdict_getitem. destruct (items d !! key); reflexivity. Qed.

(** Every entry of a reachable table is an entry of the class body or the
    default profile under a key the class body does not have. *)
Lemma table_reachable_inv d :
  table_reachable d ->
  default_factory d () = default_SymArgs /\
  forall k v, items d !! k = Some v ->
    items KLEE_SYM_ARGS !! k = Some v \/
    (items KLEE_SYM_ARGS !! k = None /\ v = default_SymArgs).
Proof.
  induction 1 as [|d key Hd [IHf IHi]].
  - split; [reflexivity|]. intros k v Hk. left. exact Hk.
  - split.
    + rewrite getitem_factory. exact IHf.
    + intros k v. rewrite getitem_items.
      destruct (items d !! key) as [v0|] eqn:Hkey; [apply IHi|].
      rewrite lookup_insert. case_decide as Hk.
      * subst k. intros [= <-].
        destruct (items KLEE_SYM_ARGS !! key) as [v1|] eqn:H1.
        -- right. exfalso.
           (* a key of the class body is in every reachable table *)
           assert (Hmono : forall d', table_reachable d' ->
                     forall k1 v1, items KLEE_SYM_ARGS !! k1 = Some v1 ->
                                   items d' !! k1 = Some v1).
           { clear. induction 1 as [|d' key' Hd' IH]; [tauto|].
             intros k1 v1 Hk1. rewrite getitem_items.
             destruct (items d' !! key') eqn:E; [eauto|].
             rewrite lookup_insert_ne; [eauto|].
             intros ->. rewrite (IH _ _ Hk1) in E. discriminate. }
           rewrite (Hmono _ Hd _ _ H1) in Hkey. discriminate.
        -- right. split; [reflexivity|exact IHf].
      * apply IHi.
Qed.

Lemma argument_list_last (p : SymArgs) :
  last (SymArgs_argument_list p) = Some "--sym-stdout".
Proof. unfold SymArgs_argument_list. apply last_snoc. Qed.

Lemma sym_flags_run self benchmark_name w :
  KLEE_sym_flags self benchmark_name w =
  (Ok (SymArgs_argument_list
         (defaultdict_getitem (OsPath.splitext benchmark_name).1 (w_SYM_ARGS w)).1),
   set_SYM_ARGS (defaultdict_getitem (OsPath.splitext benchmark_name).1 (w_SYM_ARGS w)).2 w).
Proof.
  unfold KLEE_sym_flags, SYM_ARGS_getitem, mbind, M_bind, mret, M_ret.
  destruct (defaultdict_getitem _ _). reflexivity.
Qed.

(** C5. A benchmark whose tool identifier has no entry in the table of the
    class body gets exactly the tokens of the default profile, in every
    state the table can be in; and the lookup never raises. *)
Theorem sym_flags_fallback (self : KLEE) (benchmark_name : string) (w : world) :
  table_reachable (w_SYM_ARGS w) ->
  items KLEE_SYM_ARGS !! (OsPath.splitext benchmark_name).1 = None ->
  exists w',
    KLEE_sym_flags self benchmark_name w =
      (Ok (SymArgs_argument_list default_SymArgs), w') /\
    SymArgs_argument_list default_SymArgs =
      ["--sym-args 0 1 10"; "--sym-args 0 2 2"; "--sym-files 1 8";
       "--sym-stdin 8"; "--sym-stdout"].
Proof.
  intros Hreach Hnone. rewrite sym_flags_run.
  assert (E : (defaultdict_getitem (OsPath.splitext benchmark_name).1 (w_SYM_ARGS w)).1
              = default_SymArgs).
  { rewrite getitem_value.
    destruct (table_reachable_inv _ Hreach) as [Hf Hi].
    destruct (items (w_SYM_ARGS w) !! _) as [v|] eqn:Hv; [|exact Hf].
    destruct (Hi _ _ Hv) as [H|[_ H]]; [congruence|exact H]. }
  rewrite E. eexists. split; reflexivity.
Qed.

Lemma sym_flags_fallback_witness :
  exists w',
    KLEE_sym_flags Fixture.my_klee "foo.bc" Fixture.w0 =
      (Ok (SymArgs_argument_list default_SymArgs), w') /\
    SymArgs_argument_list default_SymArgs =
      ["--sym-args 0 1 10"; "--sym-args 0 2 2"; "--sym-files 1 8";
       "--sym-stdin 8"; "--sym-stdout"].
Proof.
  apply (sym_flags_fallback Fixture.my_klee "foo.bc" Fixture.w0).
  - apply reach_init.
  - vm_compute. reflexivity.
Defined.

(** ** Invocation building *)

(** [KLEE.command], step by step. *)
Lemma command_run self entry w tokens w' :
  KLEE_command self entry w = (Ok tokens, w') ->
  let out := FS.split_path (KLEE_output_dir self (KLEE_output_base_dir (DirEntry.path entry))) in
  let sandbox := FS.split_path KLEE_SANDBOX in
  let lookup := defaultdict_getitem (OsPath.splitext (DirEntry.name entry)).1 (w_SYM_ARGS w) in
  exists fs1 fs2 fs4,
    FS.makedirs out true (w_fs w) = Ok fs1 /\
    FS.rmtree out false fs1 = (None, fs2) /\
    FS.makedirs sandbox false (FS.rmtree sandbox true fs2).2 = Ok fs4 /\
    w' = set_SYM_ARGS lookup.2 (set_fs fs4 w) /\
    tokens = basic_flags (w_BENCHMARKS_PATH w)
               (KLEE_output_dir self (KLEE_output_base_dir (DirEntry.path entry)))
             ++ flags self ++ [DirEntry.path entry]
             ++ SymArgs_argument_list lookup.1.
Proof.
  intros H out sandbox lookup. revert H.
  unfold KLEE_command, mbind, M_bind, os_makedirs, shutil_rmtree, lift_fs.
  fold out. fold sandbox. clearbody out sandbox.
  destruct (FS.makedirs out true (w_fs w)) as [fs1|e] eqn:H1; [|discriminate].
  cbn [w_fs set_fs].
  destruct (FS.rmtree out false fs1) as [[e|] fs2] eqn:H2; [discriminate|].
  cbn [w_fs set_fs].
  destruct (FS.rmtree sandbox true fs2) as [o3 fs3] eqn:H3.
  assert (o3 = None) as ->.
  { revert H3. unfold FS.rmtree. destruct sandbox; [intros [= <- _]; reflexivity|].
    destruct (fs2 !! _) as [[?|]|]; intros [= <- _]; reflexivity. }
  cbn [w_fs set_fs].
  destruct (FS.makedirs sandbox false fs3) as [fs4|e] eqn:H4; [|discriminate].
  rewrite sym_flags_run. cbn. intros [= <- <-].
  exists fs1, fs2, fs4. rewrite H3. repeat split; assumption.
Qed.

(** C6. The token list of [KLEE.command] is the baseline flags, whose last
    one names the output directory, then the flags of the configuration,
    then the benchmark path, then the tokens of the benchmark's profile;
    and these end with the symbolic standard output flag. *)
Theorem command_token_order (self : KLEE) (entry : DirEntry.t) (w w' : world)
    (tokens : list string) :
  KLEE_command self entry w = (Ok tokens, w') ->
  let output_dir := KLEE_output_dir self (KLEE_output_base_dir (DirEntry.path entry)) in
  exists sym,
    KLEE_sym_flags self (DirEntry.name entry) w = (Ok sym, set_SYM_ARGS (w_SYM_ARGS w') w) /\
    tokens = basic_flags (w_BENCHMARKS_PATH w) output_dir
             ++ flags self ++ [DirEntry.path entry] ++ sym /\
    last (basic_flags (w_BENCHMARKS_PATH w) output_dir)
      = Some ("--output-dir=" +:+ output_dir) /\
    last sym = Some "--sym-stdout".
Proof.
  intros H output_dir.
  destruct (command_run _ _ _ _ _ H) as (fs1 & fs2 & fs4 & _ & _ & _ & Hw & Ht).
  subst w'. cbn [w_SYM_ARGS set_SYM_ARGS].
  eexists. split; [apply sym_flags_run|].
  split; [exact Ht|]. split; [reflexivity|apply argument_list_last].
Qed.

Lemma command_token_order_witness :
  exists tokens sym,
    (KLEE_command Fixture.bd_klee Fixture.foo Fixture.w0).1 = Ok tokens /\
    tokens = basic_flags Fixture.src_dir
               (KLEE_output_dir Fixture.bd_klee
                  (KLEE_output_base_dir (DirEntry.path Fixture.foo)))
             ++ ["--disable-blacklist"] ++ [DirEntry.path Fixture.foo] ++ sym /\
    last sym = Some "--sym-stdout".
Proof.
  destruct (KLEE_command Fixture.bd_klee Fixture.foo Fixture.w0).1 as [tokens|e] eqn:E;
    [|vm_compute in E; discriminate].
  apply (run_result (KLEE_command Fixture.bd_klee Fixture.foo) Fixture.w0 tokens) in E.
  destruct (command_token_order _ _ _ _ _ E) as (sym & _ & Ht & _ & Hl).
  exists tokens, sym. split; [reflexivity|]. split; [exact Ht|exact Hl].
Defined.

(** ** The table under lookups *)

(** C7, as the code has it.  A lookup returns what the table holds under
    the key and leaves the table as it is when the key has an entry; when
    it has none, the lookup stores the default profile under the key; no
    other entry and not the factory are changed in either case. *)
Theorem lookup_changes_table_only_at_missing_key (self : KLEE) (benchmark_name : string)
    (w : world) :
  let key := (OsPath.splitext benchmark_name).1 in
  let w' := (KLEE_sym_flags self benchmark_name w).2 in
  match items (w_SYM_ARGS w) !! key with
  | Some _ => w' = w
  | None =>
      items (w_SYM_ARGS w') = <[key := default_factory (w_SYM_ARGS w) ()]> (items (w_SYM_ARGS w))
  end /\
  default_factory (w_SYM_ARGS w') = default_factory (w_SYM_ARGS w) /\
  (forall k, k <> key -> items (w_SYM_ARGS w') !! k = items (w_SYM_ARGS w) !! k) /\
  w_fs w' = w_fs w /\ w_events w' = w_events w.
Proof.
  intros key w'. subst w'. rewrite sym_flags_run. fold key.
  cbn [snd w_SYM_ARGS set_SYM_ARGS w_fs w_events].
  rewrite getitem_factory, getitem_items.
  unfold defaultdict_getitem.
  destruct (items (w_SYM_ARGS w) !! key) eqn:E; cbn [snd].
  - repeat split. destruct w; reflexivity.
  - repeat split. intros k Hk. rewrite lookup_insert_ne; [reflexivity|congruence].
Qed.

(** C7 as stated fails: the lookup for a benchmark without entry changes
    the table. *)
Lemma lookup_of_missing_key_grows_table :
  let w' := (KLEE_sym_flags Fixture.my_klee "foo.bc" Fixture.w0).2 in
  items (w_SYM_ARGS Fixture.w0) !! "foo" = None /\
  items (w_SYM_ARGS w') !! "foo" = Some default_SymArgs /\
  w_SYM_ARGS w' <> w_SYM_ARGS Fixture.w0.
Proof.
  split; [vm_compute; reflexivity|]. split; [vm_compute; reflexivity|].
  intros H. apply (f_equal (fun d => items d !! "foo")) in H.
  vm_compute in H. discriminate.
Qed.

(** ** The file system operations *)

Lemma remove_tree_lookup (p : list string) (fs : gmap (list string) node) (q : list string) :
  FS.remove_tree p fs !! q = if bool_decide (p `prefix_of` q) then None else fs !! q.
Proof.
  unfold FS.remove_tree. case_bool_decide as Hp.
  - apply map_lookup_filter_None_2. right. intros x _ HP. apply HP. exact Hp.
  - destruct (fs !! q) as [x|] eqn:E.
    + apply map_lookup_filter_Some_2; [exact E|exact Hp].
    + apply map_lookup_filter_None_2. left. exact E.
Qed.

Lemma remove_tree_absent (p : list string) (fs : gmap (list string) node) : absent (FS.remove_tree p fs) p.
Proof.
  intros q Hq. rewrite remove_tree_lookup. rewrite bool_decide_eq_true_2; [reflexivity|exact Hq].
Qed.

Lemma parent_snoc (l : list string) x : FS.parent (l ++ [x]) = l.
Proof. unfold FS.parent. apply removelast_last. Qed.

Lemma mkdir_inv (p : list string) (fs fs' : gmap (list string) node) :
  FS.mkdir p fs = Ok fs' ->
  fs' = <[p := Dir]> fs /\ fs !! p = None /\ p <> [] /\ FS.isdir fs (FS.parent p) = true.
Proof.
  unfold FS.mkdir, FS.isdir. destruct p as [|x p]; [discriminate|].
  destruct (FS.node_at fs (FS.parent (x :: p))) as [[?|]|]; try discriminate.
  destruct (fs !! (x :: p)) eqn:E; [discriminate|].
  intros [= <-]. repeat split; congruence.
Qed.

(** What the last step of [makedirs] does, given its outcome. *)
Lemma makedirs_finish_inv (name : list string) (exist_ok : bool)
    (fs1 fs' : gmap (list string) node) :
  FS.makedirs_finish name exist_ok fs1 = Ok fs' ->
  (fs' = <[name := Dir]> fs1 /\ fs1 !! name = None /\ name <> [] /\
   FS.isdir fs1 (FS.parent name) = true) \/
  (fs' = fs1 /\ FS.isdir fs1 name = true).
Proof.
  unfold FS.makedirs_finish. destruct (FS.mkdir name fs1) as [fs2|e] eqn:E.
  - intros [= <-]. left. apply mkdir_inv. exact E.
  - destruct exist_ok; cbn; [|discriminate].
    destruct (FS.isdir fs1 name) eqn:Hd; cbn; [|discriminate].
    intros [= <-]. right. split; reflexivity.
Qed.

(** [makedirs] only ever adds directories, and only on the way to [p]. *)
Lemma makedirs_rev_frame (rp : list string) (exist_ok : bool) (fs fs' : gmap (list string) node) :
  FS.makedirs_rev rp exist_ok fs = Ok fs' ->
  forall q, fs' !! q = fs !! q \/
            (fs !! q = None /\ fs' !! q = Some Dir /\ q `prefix_of` rev rp /\ q <> []).
Proof.
  revert fs fs'. induction rp as [|x rhead IH]; intros fs fs'.
  - cbn [FS.makedirs_rev]. intros H q.
    destruct (makedirs_finish_inv _ _ _ _ H) as [(-> & Hn & Hne & Hpd)|[-> _]]; [|left; reflexivity].
    cbn in Hne. congruence.
  - cbn [FS.makedirs_rev].
    set (finish := FS.makedirs_finish (rev (x :: rhead)) exist_ok).
    assert (Hfin : forall fs1 fs2, finish fs1 = Ok fs2 ->
              forall q, fs2 !! q = fs1 !! q \/
                (fs1 !! q = None /\ fs2 !! q = Some Dir /\ q = rev (x :: rhead) /\ q <> [])).
    { intros fs1 fs2 H q.
      destruct (makedirs_finish_inv _ _ _ _ H) as [(-> & Hn & Hne & Hpd)|[-> _]]; [|left; reflexivity].
      destruct (decide (q = rev (x :: rhead))) as [->|Hq].
      - right. rewrite lookup_insert_eq. repeat split; assumption.
      - left. rewrite lookup_insert_ne; [reflexivity|congruence]. }
    assert (Hpre : rev rhead `prefix_of` rev (x :: rhead)).
    { cbn [rev]. apply prefix_app_r. reflexivity. }
    destruct (negb (FS.exists_ fs (rev rhead))).
    + destruct (FS.makedirs_rev rhead exist_ok fs) as [fs1|e] eqn:Hrec.
      * intros H q. specialize (IH _ _ Hrec q).
        destruct (Hfin _ _ H q) as [E|(E1 & E2 & E3 & E4)].
        -- rewrite E. destruct IH as [IH|(I1 & I2 & I3 & I4)]; [left; exact IH|].
           right. repeat split; try assumption. etrans; [exact I3|exact Hpre].
        -- right. destruct IH as [IH|(I1 & I2 & I3 & I4)].
           ++ rewrite <- IH. repeat split; try assumption. rewrite E3. reflexivity.
           ++ congruence.
      * destruct e; try discriminate. intros H q.
        destruct (Hfin _ _ H q) as [E|(E1 & E2 & E3 & E4)]; [left; exact E|].
        right. repeat split; try assumption. rewrite E3. reflexivity.
    + intros H q.
      destruct (Hfin _ _ H q) as [E|(E1 & E2 & E3 & E4)]; [left; exact E|].
      right. repeat split; try assumption. rewrite E3. reflexivity.
Qed.

Lemma makedirs_frame (p : list string) (exist_ok : bool) (fs fs' : gmap (list string) node) :
  FS.makedirs p exist_ok fs = Ok fs' ->
  forall q, fs' !! q = fs !! q \/
            (fs !! q = None /\ fs' !! q = Some Dir /\ q `prefix_of` p /\ q <> []).
Proof.
  unfold FS.makedirs. intros H q.
  destruct (makedirs_rev_frame _ _ _ _ H q) as [E|(E1 & E2 & E3 & E4)]; [left; exact E|].
  right. rewrite rev_involutive in E3. repeat split; assumption.
Qed.

(** After a successful [makedirs] the path is a directory. *)
Lemma makedirs_isdir (p : list string) (exist_ok : bool) (fs fs' : gmap (list string) node) :
  FS.makedirs p exist_ok fs = Ok fs' -> FS.isdir fs' p = true.
Proof.
  unfold FS.makedirs. rewrite <- (rev_involutive p) at 2.
  destruct (rev p) as [|x rhead].
  - intros _. reflexivity.
  - cbn [FS.makedirs_rev].
    assert (Hfin : forall fs1 fs2,
              FS.makedirs_finish (rev (x :: rhead)) exist_ok fs1 = Ok fs2 ->
              FS.isdir fs2 (rev (x :: rhead)) = true).
    { intros fs1 fs2 H.
      destruct (makedirs_finish_inv _ _ _ _ H) as [(-> & Hn & Hne & Hpd)|[-> Hd]]; [|exact Hd].
      unfold FS.isdir, FS.node_at. destruct (rev (x :: rhead)); [reflexivity|].
      rewrite lookup_insert_eq. reflexivity. }
    destruct (negb (FS.exists_ fs (rev rhead))); [|apply Hfin].
    destruct (FS.makedirs_rev rhead exist_ok fs) as [fs1|e]; [apply Hfin|].
    destruct e; try discriminate. apply Hfin.
Qed.

Lemma makedirs_finish_succeeds (name : list string) (exist_ok : bool)
    (fs1 : gmap (list string) node) :
  FS.isdir fs1 (FS.parent name) = true ->
  not_a_file fs1 name ->
  exist_ok = true \/ (fs1 !! name = None /\ name <> []) ->
  exists fs', FS.makedirs_finish name exist_ok fs1 = Ok fs'.
Proof.
  intros Hpar Hnf Hok. unfold FS.makedirs_finish, FS.mkdir.
  destruct name as [|x name'].
  - destruct Hok as [->|[_ []]]; [|reflexivity]. cbn. eauto.
  - unfold FS.isdir in Hpar.
    destruct (FS.node_at fs1 (FS.parent (x :: name'))) as [[?|]|]; try discriminate.
    destruct (fs1 !! (x :: name')) as [[text|]|] eqn:E.
    + exfalso. exact (Hnf text E).
    + destruct Hok as [->|[? _]]; [|congruence].
      unfold FS.isdir, FS.node_at. rewrite E. cbn. eauto.
    + eauto.
Qed.

Lemma makedirs_rev_succeeds (rp : list string) (exist_ok : bool)
    (fs : gmap (list string) node) :
  (forall q, q `prefix_of` rev rp -> not_a_file fs q) ->
  exist_ok = true \/ (fs !! rev rp = None /\ rp <> []) ->
  exists fs', FS.makedirs_rev rp exist_ok fs = Ok fs'.
Proof.
  revert fs. induction rp as [|x rhead IH]; intros fs Hnf Hok.
  - cbn [FS.makedirs_rev]. apply makedirs_finish_succeeds.
    + reflexivity.
    + apply Hnf. reflexivity.
    + destruct Hok as [?|[_ ?]]; [left; assumption|congruence].
  - cbn [FS.makedirs_rev].
    assert (Hne : rev (x :: rhead) <> []).
    { cbn [rev]. intros E. apply app_eq_nil in E. destruct E; discriminate. }
    assert (Hpre : rev rhead `prefix_of` rev (x :: rhead)).
    { cbn [rev]. apply prefix_app_r. reflexivity. }
    assert (Hpar : FS.parent (rev (x :: rhead)) = rev rhead).
    { cbn [rev]. apply parent_snoc. }
    assert (Hok' : forall fs1 : gmap (list string) node,
               fs1 !! rev (x :: rhead) = fs !! rev (x :: rhead) ->
               exist_ok = true \/ (fs1 !! rev (x :: rhead) = None /\ rev (x :: rhead) <> [])).
    { intros fs1 E. destruct Hok as [?|[? _]]; [left; assumption|right].
      split; [congruence|exact Hne]. }
    destruct (FS.exists_ fs (rev rhead)) eqn:Hex; cbn [negb].
    + apply makedirs_finish_succeeds.
      * rewrite Hpar. unfold FS.exists_ in Hex. unfold FS.isdir.
        destruct (rev rhead) as [|y l] eqn:El; [reflexivity|]. cbn [FS.node_at] in *.
        destruct (fs !! (y :: l)) as [[text|]|] eqn:E; [|reflexivity|discriminate].
        exfalso. exact (Hnf _ Hpre text E).
      * apply Hnf. reflexivity.
      * apply Hok'. reflexivity.
    + destruct (IH fs) as [fs1 Hrec].
      * intros q Hq. apply Hnf. etrans; [exact Hq|exact Hpre].
      * right. unfold FS.exists_, FS.node_at in Hex.
        destruct rhead as [|y l]; [discriminate|].
        split; [|discriminate].
        destruct (rev (y :: l)) eqn:El; [discriminate|].
        destruct (fs !! (s :: l0)); [discriminate|reflexivity].
      * rewrite Hrec.
        assert (Hsame : fs1 !! rev (x :: rhead) = fs !! rev (x :: rhead)).
        { destruct (makedirs_rev_frame _ _ _ _ Hrec (rev (x :: rhead)))
            as [E|(_ & _ & Hp & _)]; [exact E|].
          exfalso. cbn [rev] in Hp. exact (prefix_snoc_not _ _ Hp). }
        apply makedirs_finish_succeeds.
        -- rewrite Hpar. rewrite <- (rev_involutive rhead) in Hrec.
           exact (makedirs_isdir _ _ _ _ Hrec).
        -- intros text. rewrite Hsame. apply Hnf. reflexivity.
        -- apply Hok'. exact Hsame.
Qed.

Lemma makedirs_succeeds (p : list string) (exist_ok : bool) (fs : gmap (list string) node) :
  (forall q, q `prefix_of` p -> not_a_file fs q) ->
  exist_ok = true \/ (fs !! p = None /\ p <> []) ->
  exists fs', FS.makedirs p exist_ok fs = Ok fs'.
Proof.
  intros Hnf Hok. unfold FS.makedirs. apply makedirs_rev_succeeds.
  - rewrite rev_involutive. exact Hnf.
  - rewrite rev_involutive. destruct Hok as [?|[? Hne]]; [left; assumption|right].
    split; [assumption|]. intros E. apply Hne. rewrite <- (rev_involutive p), E. reflexivity.
Qed.

Lemma makedirs_keeps_not_a_file (p : list string) (exist_ok : bool)
    (fs fs' : gmap (list string) node) (q : list string) :
  FS.makedirs p exist_ok fs = Ok fs' -> not_a_file fs q -> not_a_file fs' q.
Proof.
  intros H Hq text. destruct (makedirs_frame _ _ _ _ H q) as [->|(_ & -> & _)];
    [apply Hq|discriminate].
Qed.

Lemma remove_tree_keeps_not_a_file (p : list string) (fs : gmap (list string) node)
    (q : list string) :
  not_a_file fs q -> not_a_file (FS.remove_tree p fs) q.
Proof.
  intros Hq text. rewrite remove_tree_lookup. case_bool_decide; [discriminate|apply Hq].
Qed.

Lemma sandbox_path : FS.split_path KLEE_SANDBOX = ["tmp"; "sandbox"].
Proof. reflexivity. Qed.

(** [KLEE.command] succeeds when no regular file is in the way of the
    output directory or of the sandbox. *)
Lemma command_succeeds (self : KLEE) (entry : DirEntry.t) (w : world) :
  let out := FS.split_path (KLEE_output_dir self (KLEE_output_base_dir (DirEntry.path entry))) in
  out <> [] ->
  (forall q, q `prefix_of` out -> not_a_file (w_fs w) q) ->
  (forall q, q `prefix_of` FS.split_path KLEE_SANDBOX -> not_a_file (w_fs w) q) ->
  exists tokens w', KLEE_command self entry w = (Ok tokens, w').
Proof.
  intros out Hne Hout Hsb.
  unfold KLEE_command, mbind, M_bind, os_makedirs, shutil_rmtree, lift_fs.
  fold out. rewrite sandbox_path in *. clearbody out.
  destruct (makedirs_succeeds out true (w_fs w) Hout (or_introl eq_refl)) as [fs1 H1].
  rewrite H1. cbn [w_fs set_fs].
  pose proof (makedirs_isdir _ _ _ _ H1) as Hd1.
  assert (H2 : FS.rmtree out false fs1 = (None, FS.remove_tree out fs1)).
  { unfold FS.rmtree. unfold FS.isdir, FS.node_at in Hd1.
    destruct out; [congruence|]. destruct (fs1 !! (s :: out)) as [[?|]|]; congruence. }
  rewrite H2. cbn [w_fs set_fs].
  set (fs2 := FS.remove_tree out fs1).
  assert (Hsb2 : forall q, q `prefix_of` ["tmp"; "sandbox"] -> not_a_file fs2 q).
  { intros q Hq. apply remove_tree_keeps_not_a_file.
    eapply makedirs_keeps_not_a_file; [exact H1|]. apply Hsb. exact Hq. }
  destruct (FS.rmtree ["tmp"; "sandbox"] true fs2) as [o3 fs3] eqn:H3.
  assert (o3 = None /\ fs3 !! ["tmp"; "sandbox"] = None /\
          forall q, q `prefix_of` ["tmp"; "sandbox"] -> not_a_file fs3 q)
    as (-> & Hn3 & Hsb3).
  { revert H3. unfold FS.rmtree.
    destruct (fs2 !! ["tmp"; "sandbox"]) as [[text|]|] eqn:E; intros [= <- <-].
    - exfalso. exact (Hsb2 _ (reflexivity _) text E).
    - split; [reflexivity|]. split; [apply remove_tree_absent; reflexivity|].
      intros q Hq. apply remove_tree_keeps_not_a_file. apply Hsb2. exact Hq.
    - split; [reflexivity|]. split; [exact E|exact Hsb2]. }
  cbn [w_fs set_fs].
  destruct (makedirs_succeeds ["tmp"; "sandbox"] false fs3 Hsb3) as [fs4 H4].
  { right. split; [exact Hn3|discriminate]. }
  rewrite H4. rewrite sym_flags_run. cbn. eauto.
Qed.

(** ** Well-formed file systems *)

Lemma well_formed_lookup (fs : gmap (list string) node) (p : list string) (n : node) :
  well_formed fs -> fs !! p = Some n -> p <> [] /\ FS.isdir fs (FS.parent p) = true.
Proof. intros Hwf Hp. exact (Hwf p n Hp). Qed.

Lemma isdir_lookup (fs : gmap (list string) node) (p : list string) :
  p <> [] -> FS.isdir fs p = true -> fs !! p = Some Dir.
Proof.
  unfold FS.isdir, FS.node_at. destruct p; [congruence|].
  destruct (fs !! (s :: p)) as [[?|]|]; congruence.
Qed.

(** Below a path that is not a directory there is nothing. *)
Lemma well_formed_below (fs : gmap (list string) node) (d q : list string) :
  well_formed fs -> d <> [] -> fs !! d <> Some Dir ->
  d `prefix_of` q -> q <> d -> fs !! q = None.
Proof.
  intros Hwf Hd Hnd [k ->]. induction k as [|x k IH] using rev_ind.
  - rewrite app_nil_r. congruence.
  - intros _. destruct (fs !! (d ++ k ++ [x])) as [n|] eqn:E; [|reflexivity].
    exfalso. destruct (well_formed_lookup _ _ _ Hwf E) as [_ Hpar].
    rewrite app_assoc, parent_snoc in Hpar.
    assert (Hne : d ++ k <> []) by (destruct d; [congruence|discriminate]).
    apply isdir_lookup in Hpar; [|exact Hne].
    destruct k as [|y k].
    + rewrite app_nil_r in Hpar. congruence.
    + rewrite IH in Hpar; [discriminate|].
      intros E'. apply (f_equal length) in E'. rewrite length_app in E'. cbn in E'. lia.
Qed.

Lemma well_formed_insert_dir (fs : gmap (list string) node) (p : list string) :
  well_formed fs -> p <> [] -> FS.isdir fs (FS.parent p) = true ->
  well_formed (<[p := Dir]> fs).
Proof.
  intros Hwf Hne Hpar q n Hq.
  assert (Hmono : forall r, FS.isdir fs r = true -> FS.isdir (<[p := Dir]> fs) r = true).
  { intros r. unfold FS.isdir, FS.node_at. destruct r as [|y r]; [tauto|].
    destruct (decide (p = y :: r)) as [->|Hpr].
    - rewrite lookup_insert_eq. reflexivity.
    - rewrite lookup_insert_ne; [tauto|exact Hpr]. }
  destruct (decide (p = q)) as [<-|Hpq].
  - split; [exact Hne|]. apply Hmono. exact Hpar.
  - rewrite lookup_insert_ne in Hq; [|exact Hpq].
    destruct (well_formed_lookup _ _ _ Hwf Hq) as [Hq1 Hq2].
    split; [exact Hq1|]. apply Hmono. exact Hq2.
Qed.

Lemma well_formed_makedirs_rev (rp : list string) (exist_ok : bool)
    (fs fs' : gmap (list string) node) :
  well_formed fs -> FS.makedirs_rev rp exist_ok fs = Ok fs' -> well_formed fs'.
Proof.
  revert fs fs'.
  assert (Hfin : forall name fs1 fs2, well_formed fs1 ->
            FS.makedirs_finish name exist_ok fs1 = Ok fs2 -> well_formed fs2).
  { intros name fs1 fs2 Hwf H.
    destruct (makedirs_finish_inv _ _ _ _ H) as [(-> & _ & Hne & Hpd)|[-> _]]; [|exact Hwf].
    apply well_formed_insert_dir; assumption. }
  induction rp as [|x rhead IH]; intros fs fs' Hwf; cbn [FS.makedirs_rev].
  - apply Hfin. exact Hwf.
  - destruct (negb (FS.exists_ fs (rev rhead))); [|apply Hfin; exact Hwf].
    destruct (FS.makedirs_rev rhead exist_ok fs) as [fs1|e] eqn:Hrec.
    + apply Hfin. exact (IH _ _ Hwf Hrec).
    + destruct e; try discriminate. apply Hfin. exact Hwf.
Qed.

Lemma well_formed_makedirs (p : list string) (exist_ok : bool)
    (fs fs' : gmap (list string) node) :
  well_formed fs -> FS.makedirs p exist_ok fs = Ok fs' -> well_formed fs'.
Proof. apply well_formed_makedirs_rev. Qed.

Lemma well_formed_remove_tree (p : list string) (fs : gmap (list string) node) :
  well_formed fs -> well_formed (FS.remove_tree p fs).
Proof.
  intros Hwf q n Hq. rewrite remove_tree_lookup in Hq.
  case_bool_decide as Hpq; [discriminate|].
  destruct (well_formed_lookup _ _ _ Hwf Hq) as [Hq1 Hq2].
  split; [exact Hq1|]. unfold FS.isdir, FS.node_at in *.
  destruct (FS.parent q) as [|y r] eqn:Epar; [reflexivity|].
  rewrite remove_tree_lookup. rewrite bool_decide_eq_false_2; [exact Hq2|].
  intros Hp. apply Hpq. etrans; [exact Hp|]. rewrite <- Epar.
  destruct q as [|z q] using rev_ind; [discriminate|].
  rewrite parent_snoc. apply prefix_app_r. reflexivity.
Qed.

Lemma well_formed_rmtree (p : list string) (ignore_errors : bool)
    (fs : gmap (list string) node) :
  well_formed fs -> well_formed (FS.rmtree p ignore_errors fs).2.
Proof.
  intros Hwf. unfold FS.rmtree. destruct p as [|x p].
  - apply well_formed_remove_tree. exact Hwf.
  - destruct (fs !! (x :: p)) as [[?|]|]; cbn [snd]; try exact Hwf.
    apply well_formed_remove_tree. exact Hwf.
Qed.

(** [KLEE.command] keeps the file system a tree. *)
Lemma well_formed_command (self : KLEE) (entry : DirEntry.t) (w w' : world)
    (tokens : list string) :
  well_formed (w_fs w) -> KLEE_command self entry w = (Ok tokens, w') ->
  well_formed (w_fs w').
Proof.
  intros Hwf H.
  destruct (command_run _ _ _ _ _ H) as (fs1 & fs2 & fs4 & H1 & H2 & H4 & -> & _).
  cbn [w_fs set_SYM_ARGS set_fs].
  eapply well_formed_makedirs; [|exact H4]. apply well_formed_rmtree.
  apply (f_equal snd) in H2. cbn [snd] in H2. rewrite <- H2.
  apply well_formed_rmtree. eapply well_formed_makedirs; [exact Hwf|exact H1].
Qed.

(** ** Process supervision *)

Section Supervision.

Variable shell : string -> string -> gmap (list string) node -> process.

(** The world in which [KLEE.run] has logged the command line and started
    the child, given the world [w1] that [KLEE.command] left. *)
Lemma popen_run (command cwd : string) (w1 : world) :
  FS.isdir (w_fs w1) (FS.split_path cwd) = true ->
  subprocess_Popen shell command cwd w1 =
    (Ok (mkPopen (shell command cwd (w_fs w1)) (w_clock w1) None),
     add_event (EvPopen command cwd) w1).
Proof.
  unfold subprocess_Popen, FS.isdir.
  destruct (FS.node_at (w_fs w1) (FS.split_path cwd)) as [[?|]|]; try discriminate.
  reflexivity.
Qed.

(** A child that ends within the limit: [KLEE.run] reaps it and returns. *)
Lemma run_child_finishes (self : KLEE) (entry : DirEntry.t) (w w1 : world)
    (tokens : list string) (d : Z) :
  KLEE_command self entry w = (Ok tokens, w1) ->
  FS.isdir (w_fs w1) (FS.split_path (w_BENCHMARKS_PATH w1)) = true ->
  let command := Str.join " " tokens in
  let proc := shell command (w_BENCHMARKS_PATH w1) (w_fs w1) in
  exits_after proc = Some d ->
  d <= KLEE_MAX_TIME * KLEE_WAIT_UNTIL_KILL_SCALE ->
  KLEE_run shell self entry w =
    (Ok tt,
     add_event (EvPrint "Process finished under 2 * time limit")
       (add_event (EvReaped (exit_status proc))
          (child_ran_until (mkPopen proc (w_clock w1) None)
             (Z.max (w_clock w1) (w_clock w1 + d))
             (add_event (EvPopen command (w_BENCHMARKS_PATH w1))
                (add_event (EvPrint ("Running " +:+ command)) w1))))).
Proof.
  intros H Hcwd command proc Hd Hle.
  unfold KLEE_run, mbind, M_bind. rewrite H. fold command.
  unfold log at 1. unfold emit at 1.
  cbn [w_BENCHMARKS_PATH add_event].
  rewrite popen_run; [|exact Hcwd].
  cbn [w_fs w_clock add_event]. fold proc.
  unfold try_except, Popen_wait, Popen_end.
  cbn [child started killed fmap option_fmap option_map]. rewrite Hd.
  cbn [fmap option_fmap option_map fst snd w_clock add_event].
  rewrite (proj2 (Z.leb_le _ _)) by lia. reflexivity.
Qed.

(** A child that is still there at the limit: [KLEE.run] kills it, waits
    until it is gone, and returns. *)
Lemma run_child_killed (self : KLEE) (entry : DirEntry.t) (w w1 : world)
    (tokens : list string) :
  KLEE_command self entry w = (Ok tokens, w1) ->
  FS.isdir (w_fs w1) (FS.split_path (w_BENCHMARKS_PATH w1)) = true ->
  let command := Str.join " " tokens in
  let proc := shell command (w_BENCHMARKS_PATH w1) (w_fs w1) in
  let t_kill := w_clock w1 + KLEE_MAX_TIME * KLEE_WAIT_UNTIL_KILL_SCALE in
  match exits_after proc with
  | Some d => KLEE_MAX_TIME * KLEE_WAIT_UNTIL_KILL_SCALE < d
  | None => True
  end ->
  exists t_end code,
    Popen_end (mkPopen proc (w_clock w1) (Some t_kill)) = Some (t_end, code) /\
    KLEE_run shell self entry w =
      (Ok tt,
       add_event (EvReaped code)
         (child_ran_until (mkPopen proc (w_clock w1) (Some t_kill)) (Z.max t_kill t_end)
            (add_event EvKill
               (add_event (EvPrint "Process not finished under 2 * time limit, so killing it")
                  (child_ran_until (mkPopen proc (w_clock w1) None) t_kill
                     (add_event (EvPopen command (w_BENCHMARKS_PATH w1))
                        (add_event (EvPrint ("Running " +:+ command)) w1))))))).
Proof.
  intros H Hcwd command proc t_kill Hd.
  assert (Hend : exists t_end code,
             Popen_end (mkPopen proc (w_clock w1) (Some t_kill)) = Some (t_end, code)).
  { unfold Popen_end. cbn [child started killed fmap option_fmap option_map].
    destruct (exits_after proc); cbn [fmap option_fmap option_map]; [|eauto].
    destruct (_ <=? _); eauto. }
  destruct Hend as (t_end & code & Hend). exists t_end, code. split; [exact Hend|].
  unfold KLEE_run, mbind, M_bind. rewrite H. fold command.
  unfold log at 1. unfold emit at 1.
  cbn [w_BENCHMARKS_PATH add_event].
  rewrite popen_run; [|exact Hcwd].
  cbn [w_fs w_clock add_event]. fold proc.
  unfold try_except, Popen_wait at 1, Popen_end at 1.
  cbn [child started killed fmap option_fmap option_map].
  destruct (exits_after proc) as [d|] eqn:Ed;
    cbn [fmap option_fmap option_map fst snd w_clock add_event].
  - rewrite (proj2 (Z.leb_gt _ _)) by lia.
    rewrite bool_decide_eq_true_2 by reflexivity.
    unfold log, emit, Popen_kill, Popen_wait.
    cbn [w_clock add_event child_ran_until set_fs set_clock].
    cbn [child started]. fold t_kill. rewrite Hend. reflexivity.
  - rewrite bool_decide_eq_true_2 by reflexivity.
    unfold log, emit, Popen_kill, Popen_wait.
    cbn [w_clock add_event child_ran_until set_fs set_clock].
    cbn [child started]. fold t_kill. rewrite Hend. reflexivity.
Qed.

(** Whatever the child does, [KLEE.run] returns; it has started one child,
    on the file system [KLEE.command] left, and the file system afterwards
    is the one the child left when it was gone. *)
Lemma run_returns (self : KLEE) (entry : DirEntry.t) (w w1 : world)
    (tokens : list string) :
  KLEE_command self entry w = (Ok tokens, w1) ->
  FS.isdir (w_fs w1) (FS.split_path (w_BENCHMARKS_PATH w1)) = true ->
  let proc := shell (Str.join " " tokens) (w_BENCHMARKS_PATH w1) (w_fs w1) in
  exists w2,
    KLEE_run shell self entry w = (Ok tt, w2) /\
    w_fs w2 = fs_after proc (w_clock w2 - w_clock w1) /\
    w_SYM_ARGS w2 = w_SYM_ARGS w1 /\
    w_BENCHMARKS_PATH w2 = w_BENCHMARKS_PATH w1 /\
    tool_invocations w2 = S (tool_invocations w1).
Proof.
  intros H Hcwd proc.
  destruct (exits_after proc) as [d|] eqn:Ed.
  - destruct (Z_le_gt_dec d (KLEE_MAX_TIME * KLEE_WAIT_UNTIL_KILL_SCALE)) as [Hle|Hgt].
    + eexists. split; [exact (run_child_finishes _ _ _ _ _ _ H Hcwd Ed Hle)|].
      cbn [w_fs w_clock w_SYM_ARGS w_BENCHMARKS_PATH add_event child_ran_until
           set_fs set_clock child started].
      repeat split.
      unfold tool_invocations. cbn [w_events add_event child_ran_until set_fs set_clock].
      rewrite !List.filter_app, !length_app. cbn. lia.
    + destruct (run_child_killed _ _ _ _ _ H Hcwd) as (t_end & code & _ & Hrun).
      { fold proc. rewrite Ed. lia. }
      eexists. split; [exact Hrun|].
      cbn [w_fs w_clock w_SYM_ARGS w_BENCHMARKS_PATH add_event child_ran_until
           set_fs set_clock child started].
      repeat split.
      unfold tool_invocations. cbn [w_events add_event child_ran_until set_fs set_clock].
      rewrite !List.filter_app, !length_app. cbn. lia.
  - destruct (run_child_killed _ _ _ _ _ H Hcwd) as (t_end & code & _ & Hrun).
    { fold proc. rewrite Ed. exact I. }
    eexists. split; [exact Hrun|].
    cbn [w_fs w_clock w_SYM_ARGS w_BENCHMARKS_PATH add_event child_ran_until
         set_fs set_clock child started].
    repeat split.
    unfold tool_invocations. cbn [w_events add_event child_ran_until set_fs set_clock].
    rewrite !List.filter_app, !length_app. cbn. lia.
Qed.


(** C3. A child that never ends by itself is killed [MAX_TIME *
    WAIT_UNTIL_KILL_SCALE] seconds after its start, which is no earlier
    than the soft limit [MAX_TIME] and no later than the soft limit times
    the escalation factor; [KLEE.run] then waits until the child is gone
    and returns. *)
Theorem kill_between_soft_and_escalated_limit (self : KLEE) (entry : DirEntry.t)
    (w w1 : world) (tokens : list string) :
  KLEE_command self entry w = (Ok tokens, w1) ->
  FS.isdir (w_fs w1) (FS.split_path (w_BENCHMARKS_PATH w1)) = true ->
  let command := Str.join " " tokens in
  let proc := shell command (w_BENCHMARKS_PATH w1) (w_fs w1) in
  let t_start := w_clock w1 in
  exits_after proc = None ->
  exists w2 t_kill,
    KLEE_run shell self entry w = (Ok tt, w2) /\
    w_events w2 =
      w_events w1 ++
      [ (t_start, EvPrint ("Running " +:+ command));
        (t_start, EvPopen command (w_BENCHMARKS_PATH w1));
        (t_kill, EvPrint "Process not finished under 2 * time limit, so killing it");
        (t_kill, EvKill);
        (w_clock w2, EvReaped (-9)) ] /\
    t_start + KLEE_MAX_TIME <= t_kill /\
    t_kill <= t_start + KLEE_MAX_TIME * KLEE_WAIT_UNTIL_KILL_SCALE /\
    w_clock w2 = Z.max t_kill (t_kill + dies_after_kill proc).
Proof.
  intros H Hcwd command proc t_start Hnever.
  destruct (run_child_killed _ _ _ _ _ H Hcwd) as (t_end & code & Hend & Hrun).
  { fold command. fold proc. rewrite Hnever. exact I. }
  fold command in Hrun, Hend. fold proc in Hrun, Hend.
  unfold Popen_end in Hend. cbn [child started killed] in Hend. rewrite Hnever in Hend.
  cbn in Hend. injection Hend as <- <-.
  eexists. exists (t_start + KLEE_MAX_TIME * KLEE_WAIT_UNTIL_KILL_SCALE).
  split; [exact Hrun|].
  cbn [w_events w_clock add_event child_ran_until set_fs set_clock].
  rewrite <- !app_assoc. cbn [app].
  split; [reflexivity|]. unfold KLEE_MAX_TIME, KLEE_WAIT_UNTIL_KILL_SCALE.
  repeat split; try lia.
Qed.


End Supervision.

(** ** Strings and paths *)

Lemma append_assoc (a b c : string) : (a +:+ b) +:+ c = a +:+ (b +:+ c).
Proof.
  induction a as [|x a IH]; [reflexivity|].
  change (String x ((a +:+ b) +:+ c) = String x (a +:+ (b +:+ c))). rewrite IH. reflexivity.
Qed.

Lemma length_append (a b : string) :
  String.length (a +:+ b) = (String.length a + String.length b)%nat.
Proof.
  induction a as [|x a IH]; [reflexivity|].
  change (S (String.length (a +:+ b)) = S (String.length a + String.length b)).
  rewrite IH. reflexivity.
Qed.

Lemma substring_drop_prefix (a b : string) :
  String.substring (String.length a) (String.length b) (a +:+ b) = b.
Proof.
  induction a as [|x a IH].
  - induction b as [|y b IHb]; [reflexivity|].
    change (String y (String.substring 0 (String.length b) b) = String y b).
    f_equal. exact IHb.
  - exact IH.
Qed.

(** A string that was given a suffix ends with it. *)
Lemma endswith_append (a ext : string) : Str.endswith ext (a +:+ ext) = true.
Proof.
  unfold Str.endswith. rewrite length_append.
  rewrite (proj2 (Nat.leb_le _ _)) by lia.
  replace (String.length a + String.length ext - String.length ext)%nat
    with (String.length a) by lia.
  rewrite substring_drop_prefix. apply String.eqb_refl.
Qed.

(** The extension can be put on before or after joining, for a relative
    file name. *)
Lemma join_then_extend (base file ext : string) (c : ascii) (rest : string) :
  file = String c rest -> c <> "/"%char ->
  OsPath.join base file +:+ ext = OsPath.join base (file +:+ ext).
Proof.
  intros -> Hc. unfold OsPath.join, Str.startswith.
  change (String c rest +:+ ext) with (String c (rest +:+ ext)).
  assert (Hp : forall s, String.prefix "/" (String c s) = false).
  { intros s.
    change (String.prefix "/" (String c s))
      with (if ascii_dec "/" c then String.prefix "" s else false).
    destruct (ascii_dec "/" c) as [E|_]; [congruence|reflexivity]. }
  rewrite !Hp. change (String c (rest +:+ ext)) with (String c rest +:+ ext).
  destruct (_ || _).
  - apply append_assoc.
  - rewrite !append_assoc. reflexivity.
Qed.

Lemma stats_patch_name (base : string) :
  OsPath.join base KLEE_KLEE_STATS_DIFF +:+ Differ_DIFF_EXT =
  OsPath.join base (KLEE_KLEE_STATS_DIFF +:+ Differ_DIFF_EXT).
Proof. eapply join_then_extend; [reflexivity|discriminate]. Qed.

(** ** Comparison *)

Lemma open_w_inv (p : list string) (fs fs1 : gmap (list string) node) :
  FS.open_w p fs = Ok fs1 -> fs1 = <[p := File ""]> fs /\ p <> [].
Proof.
  unfold FS.open_w. destruct p as [|x p]; [discriminate|].
  destruct (FS.node_at fs (FS.parent (x :: p))) as [[?|]|]; try discriminate.
  destruct (fs !! (x :: p)) as [[?|]|]; try discriminate;
    intros [= <-]; split; congruence.
Qed.

Lemma open_w_succeeds (p : list string) (fs : gmap (list string) node) :
  FS.isdir fs (FS.parent p) = true -> FS.isdir fs p = false ->
  exists fs1, FS.open_w p fs = Ok fs1.
Proof.
  unfold FS.open_w, FS.isdir. destruct p as [|x p]; [discriminate|].
  destruct (FS.node_at fs (FS.parent (x :: p))) as [[?|]|]; try discriminate.
  intros _. cbn [FS.node_at]. destruct (fs !! (x :: p)) as [[?|]|]; try discriminate; eauto.
Qed.

(** Opening the artifact and writing the lines into it. *)
Lemma write_artifact_run (file : string) (lines : list string) (w : world) :
  (open_write file;; writelines file lines) w =
  match FS.open_w (FS.split_path file) (w_fs w) with
  | Ok _ =>
      (Ok tt, set_fs (<[FS.split_path file := File (Str.join "" lines)]> (w_fs w))
                     (add_event (EvOpenWrite file) w))
  | Raise e => (Raise e, add_event (EvOpenWrite file) w)
  end.
Proof.
  unfold open_write, writelines, emit, lift_fs, mbind, M_bind.
  cbn [w_fs add_event].
  destruct (FS.open_w (FS.split_path file) (w_fs w)) as [fs1|e] eqn:E; [|reflexivity].
  destruct (open_w_inv _ _ _ E) as [-> _].
  cbn [w_fs set_fs]. unfold FS.append_text. rewrite lookup_insert_eq.
  rewrite insert_insert_eq. reflexivity.
Qed.

Section Scheduler.

Variable shell : string -> string -> gmap (list string) node -> process.
Variable klee_stats : string -> gmap (list string) node -> list string.
Variable unified_diff : list string -> list string -> string -> string -> Z -> list string.

(** C8. With the raw-text comparison, [save_diff] reads the [info] file of
    the first output directory, then that of the second, and only then
    opens the artifact for writing; the artifact is the [info] path of the
    base directory with the suffix [.patch], and its text is the unified
    diff, with three lines of context, of the two line sequences read,
    labelled with the paths of the two [info] files.  This holds for all
    texts, those of three lines that differ in one line among them. *)
Theorem raw_text_diff_written_after_both_reads (output_base_dir out1 out2 : string)
    (text1 text2 : string) (w : world) (fs1 : gmap (list string) node) :
  let info1 := OsPath.join out1 "info" in
  let info2 := OsPath.join out2 "info" in
  let artifact := OsPath.join output_base_dir "info" +:+ Differ_DIFF_EXT in
  FS.read_text (FS.split_path info1) (w_fs w) = Ok text1 ->
  FS.read_text (FS.split_path info2) (w_fs w) = Ok text2 ->
  FS.open_w (FS.split_path artifact) (w_fs w) = Ok fs1 ->
  Differ_save_diff unified_diff InfoFilesDiffer output_base_dir out1 out2 w =
    (Ok tt,
     mkWorld
       (<[FS.split_path artifact :=
            File (Str.join ""
                    (unified_diff (FS.readlines text1) (FS.readlines text2) info1 info2 3))]>
          (w_fs w))
       (w_SYM_ARGS w) (w_BENCHMARKS_PATH w) (w_clock w)
       (w_events w ++ [ (w_clock w, EvOpenRead info1);
                        (w_clock w, EvOpenRead info2);
                        (w_clock w, EvOpenWrite artifact) ])) /\
  Str.endswith ".patch" artifact = true.
Proof.
  intros info1 info2 artifact H1 H2 H3. split; [|apply endswith_append].
  unfold Differ_save_diff. cbn [InfoFilesDiffer read_originals].
  unfold InfoFilesDiffer_read_originals.
  fold info1. fold info2. change (OsPath.join output_base_dir "info" +:+ Differ_DIFF_EXT)
    with artifact.
  bind_step.
  bind_step.
  unfold open_readlines at 1. rewrite H1.
  bind_step.
  unfold open_readlines at 1. cbn [w_fs add_event]. rewrite H2.
  unfold mret, M_ret.
  change (OsPath.join output_base_dir "info" +:+ Differ_DIFF_EXT) with artifact.
  rewrite write_artifact_run. cbn [w_fs add_event]. rewrite H3.
  unfold set_fs. cbn [w_fs w_SYM_ARGS w_BENCHMARKS_PATH w_clock w_events add_event].
  rewrite <- !app_assoc. reflexivity.
Qed.

(** *** One step of the scheduler *)

Lemma has_both_solutions_run (entry : DirEntry.t) (w : world) :
  has_both_solutions entry w =
  (Ok (FS.exists_ (w_fs w)
         (FS.split_path (OsPath.join (KLEE_output_base_dir (DirEntry.path entry))
                                     "klee_stats_diff.patch"))), w).
Proof. reflexivity. Qed.

(** The time report only prints. *)
Lemma report_run (benchmarks_left : Z) (w wa : world) :
  print_estimated_time_left benchmarks_left w = (Ok tt, wa) ->
  exists line, wa = add_event (EvPrint line) w.
Proof.
  unfold print_estimated_time_left, human_readable_time, mbind, M_bind, emit.
  destruct (Datetime.min_plus_seconds_strftime _) as [s1|]; [|discriminate].
  destruct (Datetime.min_plus_seconds_strftime _) as [s2|]; [|discriminate].
  intros [= <-]. eauto.
Qed.

(** The derived-statistics comparison leaves the file the scheduler looks
    for. *)
Lemma stats_save_diff_marks (rc : ResultComparator) (entry : DirEntry.t) (w w' : world) :
  differ rc = KleeStatsDiffer klee_stats ->
  ResultComparator_save_diff unified_diff rc entry w = (Ok tt, w') ->
  FS.exists_ (w_fs w')
    (FS.split_path (OsPath.join (KLEE_output_base_dir (DirEntry.path entry))
                                "klee_stats_diff.patch")) = true.
Proof.
  intros Hd. unfold ResultComparator_save_diff, Differ_save_diff. rewrite Hd.
  cbn [KleeStatsDiffer read_originals].
  unfold KleeStatsDiffer_read_originals, KleeStatsDiffer_call_klee_stats_on.
  bind_step.
  bind_step.
  bind_step.
  unfold mret, M_ret.
  rewrite stats_patch_name.
  change (KLEE_KLEE_STATS_DIFF +:+ Differ_DIFF_EXT) with "klee_stats_diff.patch".
  rewrite write_artifact_run.
  destruct (FS.open_w _ _) as [fs1|e] eqn:E; [|discriminate].
  destruct (open_w_inv _ _ _ E) as [_ Hne].
  intros [= <-]. cbn [w_fs set_fs]. unfold FS.exists_, FS.node_at.
  destruct (FS.split_path _) as [|x p]; [congruence|].
  rewrite lookup_insert_eq. reflexivity.
Qed.

(** C1, as the code has it.  The scheduler skips a benchmark, without any
    tool invocation or other effect, exactly when the file
    [klee_stats_diff.patch] exists in the output base directory of the
    benchmark, whichever comparison is in use.  When the file is missing it
    prints the time report and starts the runs: once the first invocation
    is built the tool is invoked.  The file is the artifact of the
    derived-statistics comparison, so after a step that ended normally
    with that comparison the file exists and a second visit skips the
    benchmark. *)
Theorem scheduler_skips_iff_stats_patch_exists (bd_klee my_klee : KLEE)
    (rc : ResultComparator) (benchmarks_len i : Z) (entry : DirEntry.t) (w : world) :
  let marker := OsPath.join (KLEE_output_base_dir (DirEntry.path entry))
                            "klee_stats_diff.patch" in
  let step := main_loop_body shell unified_diff bd_klee my_klee rc benchmarks_len i entry in
  (FS.exists_ (w_fs w) (FS.split_path marker) = true -> step w = (Ok tt, w)) /\
  (FS.exists_ (w_fs w) (FS.split_path marker) = false ->
     step w = (print_estimated_time_left (benchmarks_len - i);;
               KLEE_run shell bd_klee entry;;
               KLEE_run shell my_klee entry;;
               ResultComparator_save_diff unified_diff rc entry) w /\
     forall wa tokens w1,
       print_estimated_time_left (benchmarks_len - i) w = (Ok tt, wa) ->
       KLEE_command bd_klee entry wa = (Ok tokens, w1) ->
       FS.isdir (w_fs w1) (FS.split_path (w_BENCHMARKS_PATH w1)) = true ->
       exists wb, KLEE_run shell bd_klee entry wa = (Ok tt, wb) /\
                  tool_invocations wb = S (tool_invocations w)) /\
  (differ rc = KleeStatsDiffer klee_stats ->
   forall w', step w = (Ok tt, w') ->
     FS.exists_ (w_fs w') (FS.split_path marker) = true /\ step w' = (Ok tt, w')).
Proof.
  intros marker step.
  assert (Hskip : forall w0, FS.exists_ (w_fs w0) (FS.split_path marker) = true ->
                             step w0 = (Ok tt, w0)).
  { intros w0 Hex. unfold step, main_loop_body. bind_step.
    rewrite has_both_solutions_run. fold marker. rewrite Hex. reflexivity. }
  assert (Hgo : FS.exists_ (w_fs w) (FS.split_path marker) = false ->
     step w = (print_estimated_time_left (benchmarks_len - i);;
               KLEE_run shell bd_klee entry;;
               KLEE_run shell my_klee entry;;
               ResultComparator_save_diff unified_diff rc entry) w).
  { intros Hex. unfold step, main_loop_body. bind_step.
    rewrite has_both_solutions_run. fold marker. rewrite Hex. reflexivity. }
  split; [apply Hskip|]. split.
  - intros Hex. split; [apply Hgo; exact Hex|].
    intros wa tokens w1 Hrep Hcmd Hcwd.
    destruct (run_returns shell _ _ _ _ _ Hcmd Hcwd) as (wb & Hrun & _ & _ & _ & Hcount).
    exists wb. split; [exact Hrun|]. rewrite Hcount. f_equal.
    destruct (report_run _ _ _ Hrep) as [line ->].
    destruct (command_run _ _ _ _ _ Hcmd) as (? & ? & ? & _ & _ & _ & -> & _).
    unfold tool_invocations. cbn [w_events set_SYM_ARGS set_fs add_event].
    rewrite List.filter_app, length_app. cbn. lia.
  - intros Hd w' Hstep.
    assert (Hex' : FS.exists_ (w_fs w') (FS.split_path marker) = true).
    { destruct (FS.exists_ (w_fs w) (FS.split_path marker)) eqn:Hex.
      - rewrite (Hskip w Hex) in Hstep. injection Hstep as <-. exact Hex.
      - rewrite (Hgo eq_refl) in Hstep. revert Hstep.
        bind_step.
        destruct (print_estimated_time_left _ w) as [[[]|e] wa]; [|discriminate].
        bind_step.
        destruct (KLEE_run shell bd_klee entry wa) as [[[]|e] wb]; [|discriminate].
        bind_step.
        destruct (KLEE_run shell my_klee entry wb) as [[[]|e] wc]; [|discriminate].
        intros Hsave. exact (stats_save_diff_marks _ _ _ _ Hd Hsave). }
    split; [exact Hex'|apply Hskip; exact Hex'].
Qed.

(** C4. In a step of the scheduler whose two invocations can be built,
    neither run raises, whatever the children do: a child that ends
    within the limit is reaped and its exit status only recorded, never
    read, and no kill is sent; a child that is killed at the limit does
    not stop the step either.  The comparison is then run on the file
    system as the second child left it. *)
Theorem child_outcome_never_stops_the_step (bd_klee my_klee : KLEE)
    (rc : ResultComparator) (benchmarks_len i : Z) (entry : DirEntry.t)
    (w wa w1 wb w2 : world) (tokens1 tokens2 : list string) (r1 : result unit) :
  let marker := OsPath.join (KLEE_output_base_dir (DirEntry.path entry))
                            "klee_stats_diff.patch" in
  let limit := KLEE_MAX_TIME * KLEE_WAIT_UNTIL_KILL_SCALE in
  let command1 := Str.join " " tokens1 in
  let proc1 := shell command1 (w_BENCHMARKS_PATH w1) (w_fs w1) in
  let proc2 := shell (Str.join " " tokens2) (w_BENCHMARKS_PATH w2) (w_fs w2) in
  FS.exists_ (w_fs w) (FS.split_path marker) = false ->
  print_estimated_time_left (benchmarks_len - i) w = (Ok tt, wa) ->
  KLEE_command bd_klee entry wa = (Ok tokens1, w1) ->
  FS.isdir (w_fs w1) (FS.split_path (w_BENCHMARKS_PATH w1)) = true ->
  KLEE_run shell bd_klee entry wa = (r1, wb) ->
  KLEE_command my_klee entry wb = (Ok tokens2, w2) ->
  FS.isdir (w_fs w2) (FS.split_path (w_BENCHMARKS_PATH w2)) = true ->
  r1 = Ok tt /\
  (forall d, exits_after proc1 = Some d -> d <= limit ->
     w_events wb =
       w_events w1 ++
       [ (w_clock w1, EvPrint ("Running " +:+ command1));
         (w_clock w1, EvPopen command1 (w_BENCHMARKS_PATH w1));
         (w_clock wb, EvReaped (exit_status proc1));
         (w_clock wb, EvPrint "Process finished under 2 * time limit") ]) /\
  exists wc,
    KLEE_run shell my_klee entry wb = (Ok tt, wc) /\
    w_fs wc = fs_after proc2 (w_clock wc - w_clock w2) /\
    main_loop_body shell unified_diff bd_klee my_klee rc benchmarks_len i entry w =
      ResultComparator_save_diff unified_diff rc entry wc.
Proof.
  intros marker limit command1 proc1 proc2 Hex Hrep Hc1 Hcwd1 Hrun1 Hc2 Hcwd2.
  destruct (run_returns shell _ _ _ _ _ Hc1 Hcwd1) as (wb' & Hrun1' & _).
  rewrite Hrun1 in Hrun1'. injection Hrun1' as -> <-.
  destruct (run_returns shell _ _ _ _ _ Hc2 Hcwd2) as (wc & Hrun2 & Hfs2 & _).
  split; [reflexivity|]. split.
  - intros d Hd Hle.
    pose proof (run_child_finishes shell _ _ _ _ _ _ Hc1 Hcwd1 Hd Hle) as Hfin.
    fold command1 in Hfin. fold proc1 in Hfin. rewrite Hrun1 in Hfin.
    injection Hfin as ->.
    cbn [w_events w_clock add_event child_ran_until set_fs set_clock].
    rewrite <- !app_assoc. reflexivity.
  - exists wc. split; [exact Hrun2|]. split; [exact Hfs2|].
    unfold main_loop_body. bind_step.
    rewrite has_both_solutions_run. fold marker. rewrite Hex.
    bind_step. rewrite Hrep.
    bind_step. rewrite Hrun1.
    bind_step. rewrite Hrun2. reflexivity.
Qed.

End Scheduler.

(** ** The time report *)

Lemma strftime_in_range (seconds : Z) :
  0 <= seconds < Datetime.MAXORDINAL * 86400 ->
  Datetime.min_plus_seconds_strftime seconds = Ok (clock_face (seconds mod 86400)).
Proof.
  intros Hr. unfold Datetime.min_plus_seconds_strftime, clock_face, Datetime.MAXORDINAL in *.
  assert (H1 : 0 <= seconds / 86400 < 3652059).
  { split; [apply Z.div_pos; lia|apply Z.div_lt_upper_bound; lia]. }
  rewrite (proj2 (Z.ltb_lt _ _)) by lia.
  rewrite (proj2 (Z.leb_le _ _)) by lia.
  cbn [andb].
  rewrite (Z.mod_mod_divide (seconds mod 86400) 3600 60) by (exists 60; reflexivity).
  reflexivity.
Qed.

(** C10, as the code has it.  The estimate is [benchmarks_left] times the
    soft limit times 2, the worst-case bound is the estimate times the
    escalation factor, and both are printed as time of day on day
    [1 + seconds // 86400] of the calendar: as long as that day exists
    (the bound is below 3652059 days) an estimate of a day or more is
    printed as the estimate modulo 24 hours. *)
Theorem time_report_drops_whole_days (benchmarks_left : Z) (w : world) :
  let estimated_time_left := benchmarks_left * KLEE_MAX_TIME * 2 in
  let max_time_left := estimated_time_left * KLEE_WAIT_UNTIL_KILL_SCALE in
  86400 <= estimated_time_left ->
  max_time_left < Datetime.MAXORDINAL * 86400 ->
  print_estimated_time_left benchmarks_left w =
    (Ok tt,
     add_event
       (EvPrint ("ESTIMATED TIME LEFT: " +:+ clock_face (estimated_time_left mod 86400) +:+
                 " (no more than " +:+ clock_face (max_time_left mod 86400) +:+ ")")) w).
Proof.
  intros est mx Hday Hmax.
  unfold print_estimated_time_left, human_readable_time, mbind, M_bind, emit.
  change (benchmarks_left * KLEE_MAX_TIME * NUMBER_OF_COMPARED_KLEES) with est.
  change (est * KLEE_WAIT_UNTIL_KILL_SCALE) with mx.
  assert (est <= mx) by (unfold mx, KLEE_WAIT_UNTIL_KILL_SCALE; lia).
  rewrite !strftime_in_range by lia. reflexivity.
Qed.

Lemma time_report_drops_whole_days_witness :
  86400 <= 1000 * KLEE_MAX_TIME * 2 /\
  print_estimated_time_left 1000 Fixture.w0 =
    (Ok tt,
     add_event
       (EvPrint "ESTIMATED TIME LEFT: 09 hours, 20 minutes, 00 seconds (no more than 18 hours, 40 minutes, 00 seconds)")
       Fixture.w0).
Proof.
  split; [vm_compute; discriminate|].
  apply (time_report_drops_whole_days 1000 Fixture.w0); vm_compute; [discriminate|reflexivity].
Defined.

(** C10 as stated fails for estimates beyond the calendar: nothing is
    printed for 2629482480 benchmarks, whose estimate is 3652059 days. *)
Lemma time_report_overflows :
  86400 <= 2629482480 * KLEE_MAX_TIME * 2 /\
  (human_readable_time (2629482480 * KLEE_MAX_TIME * 2) Fixture.w0).1
    = Raise OverflowError /\
  (print_estimated_time_left 2629482480 Fixture.w0).1 = Raise OverflowError /\
  w_events (print_estimated_time_left 2629482480 Fixture.w0).2 = [].
Proof.
  split; [vm_compute; discriminate|]. split; [vm_compute; reflexivity|].
  split; vm_compute; reflexivity.
Qed.

(** ** What the shell makes of the command line *)









Section CommandLine.

Variable shell : string -> string -> gmap (list string) node -> process.


End CommandLine.


(** * The properties at work on the fixtures *)

Lemma fs0_well_formed : well_formed Fixture.fs0.
Proof.
  assert (H : bool_decide (well_formed Fixture.fs0) = true) by (vm_compute; reflexivity).
  exact (bool_decide_eq_true_1 _ H).
Qed.

(** C1 as stated fails for the raw-text comparison: the first pass writes
    [info.patch], and the second pass runs the tool twice again. *)
Lemma raw_text_second_pass_runs_again :
  let w1 := (Fixture.raw_text_pass Fixture.w0).2 in
  let w2 := (Fixture.raw_text_pass w1).2 in
  (Fixture.raw_text_pass Fixture.w0).1 = Ok tt /\
  FS.exists_ (w_fs w1) (FS.split_path (OsPath.join Fixture.base_dir "info.patch")) = true /\
  tool_invocations w1 = 2%nat /\
  (Fixture.raw_text_pass w1).1 = Ok tt /\
  tool_invocations w2 = 4%nat.
Proof.
  intros w1 w2. split; [vm_compute; reflexivity|].
  split; [vm_compute; reflexivity|]. split; [vm_compute; reflexivity|].
  split; vm_compute; reflexivity.
Qed.

Lemma scheduler_skips_iff_stats_patch_exists_witness :
  let step := main_loop_body Fixture.klee_writes_info Difflib.unified_diff
                Fixture.bd_klee Fixture.my_klee Fixture.stats_comparator 1 0 Fixture.foo in
  let w1 := (step Fixture.w0).2 in
  step Fixture.w0 = (Ok tt, w1) /\
  tool_invocations w1 = 2%nat /\
  FS.exists_ (w_fs w1)
    (FS.split_path (OsPath.join (KLEE_output_base_dir (DirEntry.path Fixture.foo))
                                "klee_stats_diff.patch")) = true /\
  step w1 = (Ok tt, w1).
Proof.
  intros step w1.
  assert (E : step Fixture.w0 = (Ok tt, w1)).
  { subst w1. apply (run_result step Fixture.w0 tt). vm_compute. reflexivity. }
  split; [exact E|]. split; [vm_compute; reflexivity|].
  clearbody w1. subst step.
  destruct (scheduler_skips_iff_stats_patch_exists
              Fixture.klee_writes_info Fixture.klee_stats_stub Difflib.unified_diff
              Fixture.bd_klee Fixture.my_klee Fixture.stats_comparator
              1 0 Fixture.foo Fixture.w0) as (_ & _ & Hagain).
  destruct (Hagain eq_refl w1 E) as [Hmark Hskip].
  split; [exact Hmark|exact Hskip].
Defined.



Lemma kill_between_soft_and_escalated_limit_witness :
  exists w2 t_kill,
    KLEE_run Fixture.klee_hangs Fixture.bd_klee Fixture.foo Fixture.w0 = (Ok tt, w2) /\
    (t_kill, EvKill) ∈ w_events w2 /\
    60 <= t_kill <= 120 /\
    w_clock w2 = Z.max t_kill (t_kill + 3).
Proof.
  destruct (KLEE_command Fixture.bd_klee Fixture.foo Fixture.w0).1 as [tokens|e] eqn:E;
    [|vm_compute in E; discriminate].
  apply (run_result (KLEE_command Fixture.bd_klee Fixture.foo) Fixture.w0 tokens) in E.
  destruct (kill_between_soft_and_escalated_limit Fixture.klee_hangs
              Fixture.bd_klee Fixture.foo Fixture.w0 _ tokens E)
    as (w2 & t_kill & Hrun & Hev & Hlo & Hhi & Hclock).
  - vm_compute. reflexivity.
  - reflexivity.
  - exists w2, t_kill. split; [exact Hrun|]. split.
    + rewrite Hev. apply elem_of_app. right.
      do 3 apply list_elem_of_further. apply list_elem_of_here.
    + split; [|exact Hclock]. revert Hlo Hhi. cbn [w_clock].
      unfold KLEE_MAX_TIME, KLEE_WAIT_UNTIL_KILL_SCALE.
      replace (w_clock (KLEE_command Fixture.bd_klee Fixture.foo Fixture.w0).2) with 0
        by (vm_compute; reflexivity).
      lia.
Defined.

Lemma child_outcome_never_stops_the_step_witness :
  let step := main_loop_body Fixture.klee_hangs Difflib.unified_diff
                Fixture.bd_klee Fixture.my_klee Fixture.stats_comparator 1 0 Fixture.foo in
  let w3 := (step Fixture.w0).2 in
  (step Fixture.w0).1 = Ok tt /\
  w_clock w3 = 246 /\
  FS.exists_ (w_fs w3)
    (FS.split_path (OsPath.join Fixture.base_dir "klee_stats_diff.patch")) = true /\
  exists wc,
    step Fixture.w0 =
      ResultComparator_save_diff Difflib.unified_diff Fixture.stats_comparator Fixture.foo wc.
Proof.
  intros step w3. split; [vm_compute; reflexivity|]. split; [vm_compute; reflexivity|].
  split; [vm_compute; reflexivity|]. clear w3. subst step.
  set (shell := Fixture.klee_hangs).
  assert (Ea : print_estimated_time_left (1 - 0) Fixture.w0
               = (Ok tt, (print_estimated_time_left (1 - 0) Fixture.w0).2)).
  { apply (run_result (print_estimated_time_left (1 - 0)) Fixture.w0 tt).
    vm_compute. reflexivity. }
  set (wa := (print_estimated_time_left (1 - 0) Fixture.w0).2) in *.
  destruct (KLEE_command Fixture.bd_klee Fixture.foo wa).1 as [tokens1|e] eqn:E1;
    [|vm_compute in E1; discriminate].
  apply (run_result (KLEE_command Fixture.bd_klee Fixture.foo) wa tokens1) in E1.
  set (w1 := (KLEE_command Fixture.bd_klee Fixture.foo wa).2) in *.
  assert (Hcwd1 : FS.isdir (w_fs w1) (FS.split_path (w_BENCHMARKS_PATH w1)) = true)
    by (vm_compute; reflexivity).
  set (rb := KLEE_run shell Fixture.bd_klee Fixture.foo wa).
  assert (Eb : KLEE_run shell Fixture.bd_klee Fixture.foo wa = (rb.1, rb.2))
    by (subst rb; destruct (KLEE_run shell Fixture.bd_klee Fixture.foo wa); reflexivity).
  destruct (KLEE_command Fixture.my_klee Fixture.foo rb.2).1 as [tokens2|e] eqn:E2;
    [|vm_compute in E2; discriminate].
  apply (run_result (KLEE_command Fixture.my_klee Fixture.foo) rb.2 tokens2) in E2.
  set (w2 := (KLEE_command Fixture.my_klee Fixture.foo rb.2).2) in *.
  assert (Hcwd2 : FS.isdir (w_fs w2) (FS.split_path (w_BENCHMARKS_PATH w2)) = true)
    by (vm_compute; reflexivity).
  assert (Hmark : FS.exists_ (w_fs Fixture.w0)
            (FS.split_path (OsPath.join (KLEE_output_base_dir (DirEntry.path Fixture.foo))
                                        "klee_stats_diff.patch")) = false)
    by (vm_compute; reflexivity).
  clearbody w2 w1. clearbody rb. clearbody wa.
  destruct (child_outcome_never_stops_the_step shell Difflib.unified_diff
              Fixture.bd_klee Fixture.my_klee Fixture.stats_comparator
              1 0 Fixture.foo Fixture.w0 wa w1 rb.2 w2 tokens1 tokens2 rb.1
              Hmark Ea E1 Hcwd1 Eb E2 Hcwd2)
    as (_ & _ & wc & _ & _ & Hstep).
  exists wc. exact Hstep.
Defined.

Lemma raw_text_diff_written_after_both_reads_witness :
  let artifact := OsPath.join Fixture.base_dir "info" +:+ ".patch" in
  let r := Differ_save_diff Difflib.unified_diff InfoFilesDiffer
             Fixture.base_dir Fixture.out1 Fixture.out2 Fixture.w_two_infos in
  FS.readlines (Fixture.info_text "--disable-blacklist") = Fixture.three_lines_a /\
  FS.readlines (Fixture.info_text "") = Fixture.three_lines_b /\
  r.1 = Ok tt /\
  w_fs r.2 !! FS.split_path artifact = Some (File Fixture.expected_patch) /\
  w_events r.2 =
    w_events Fixture.w_two_infos ++
    [ (2, EvOpenRead (OsPath.join Fixture.out1 "info"));
      (2, EvOpenRead (OsPath.join Fixture.out2 "info"));
      (2, EvOpenWrite artifact) ].
Proof.
  intros artifact r. split; [vm_compute; reflexivity|]. split; [vm_compute; reflexivity|].
  destruct (open_w_succeeds (FS.split_path artifact) (w_fs Fixture.w_two_infos))
    as [fs1 E3]; try (vm_compute; reflexivity).
  assert (H1 : FS.read_text (FS.split_path (OsPath.join Fixture.out1 "info"))
                 (w_fs Fixture.w_two_infos) = Ok (Fixture.info_text "--disable-blacklist"))
    by (vm_compute; reflexivity).
  assert (H2 : FS.read_text (FS.split_path (OsPath.join Fixture.out2 "info"))
                 (w_fs Fixture.w_two_infos) = Ok (Fixture.info_text ""))
    by (vm_compute; reflexivity).
  destruct (raw_text_diff_written_after_both_reads Difflib.unified_diff
              Fixture.base_dir Fixture.out1 Fixture.out2
              (Fixture.info_text "--disable-blacklist") (Fixture.info_text "")
              Fixture.w_two_infos fs1 H1 H2 E3)
    as [Hrun _].
  subst r. rewrite Hrun. cbn [fst snd w_fs w_events].
  split; [reflexivity|]. split.
  - rewrite lookup_insert_eq. apply (f_equal (fun text => Some (File text))).
    vm_compute. reflexivity.
  - replace (w_clock Fixture.w_two_infos) with 2 by (vm_compute; reflexivity).
    reflexivity.
Defined.


(** * Further properties of the harness *)

(** ** More on strings *)

Lemma append_empty_r (a : string) : a +:+ "" = a.
Proof.
  induction a as [|x a IH]; [reflexivity|].
  change (String x (a +:+ "") = String x a). rewrite IH. reflexivity.
Qed.


Lemma substring_skip_prefix (a b : string) (k m : nat) :
  String.substring (String.length a + k) m (a +:+ b) = String.substring k m b.
Proof. induction a as [|x a IH]; [reflexivity|exact IH]. Qed.

Lemma substring_take_prefix (a b : string) :
  String.substring 0 (String.length a) (a +:+ b) = a.
Proof.
  induction a as [|x a IH].
  - destruct b; reflexivity.
  - change (String x (String.substring 0 (String.length a) (a +:+ b)) = String x a).
    rewrite IH. reflexivity.
Qed.

Lemma substring_all (b : string) : String.substring 0 (String.length b) b = b.
Proof.
  induction b as [|y b IH]; [reflexivity|].
  change (String y (String.substring 0 (String.length b) b) = String y b).
  rewrite IH. reflexivity.
Qed.

(** A string is what comes before an index followed by what comes after. *)
Lemma substring_split (s : string) (m : nat) :
  (m <= String.length s)%nat ->
  s = String.substring 0 m s +:+ String.substring m (String.length s - m) s.
Proof.
  revert m. induction s as [|x s IH]; intros m Hm.
  - destruct m; [reflexivity|cbn in Hm; lia].
  - destruct m as [|m].
    + change (String x s = "" +:+ String.substring 0 (String.length (String x s)) (String x s)).
      rewrite substring_all. reflexivity.
    + cbn in Hm.
      change (String x s = String x (String.substring 0 m s
                                       +:+ String.substring m (String.length s - m) s)).
      rewrite <- IH by lia. reflexivity.
Qed.

Lemma substring_length_le (s : string) (n m : nat) :
  (n + m <= String.length s)%nat -> String.length (String.substring n m s) = m.
Proof.
  revert n m. induction s as [|x s IH]; intros n m H.
  - cbn in H. destruct n, m; try reflexivity; lia.
  - destruct n as [|n].
    + destruct m as [|m]; [reflexivity|]. cbn in H.
      change (S (String.length (String.substring 0 m s)) = S m). rewrite IH by lia. reflexivity.
    + cbn in H. change (String.length (String.substring n m s) = m). apply IH. lia.
Qed.

(** [s.endswith(p)] says that [s] is some string followed by [p]. *)
Lemma endswith_inv (p s : string) :
  Str.endswith p s = true -> exists a, s = a +:+ p.
Proof.
  unfold Str.endswith. destruct (_ <=? _)%nat eqn:Hle; [|discriminate].
  apply Nat.leb_le in Hle. intros H. apply String.eqb_eq in H.
  exists (String.substring 0 (String.length s - String.length p) s).
  pose proof (substring_split s (String.length s - String.length p)) as E.
  replace (String.length s - (String.length s - String.length p))%nat
    with (String.length p) in E by lia.
  rewrite H in E. apply E. lia.
Qed.

Lemma mem_append (c : ascii) (a b : string) :
  Str.mem c (a +:+ b) = Str.mem c a || Str.mem c b.
Proof.
  induction a as [|x a IH]; [reflexivity|].
  change (Ascii.eqb x c || Str.mem c (a +:+ b) = Ascii.eqb x c || Str.mem c a || Str.mem c b).
  rewrite IH. apply orb_assoc.
Qed.

Lemma rfind_from_absent (c : ascii) (s : string) (i : Z) :
  Str.mem c s = false -> Str.rfind_from c s i = -1.
Proof.
  revert i. induction s as [|x s IH]; intros i; [reflexivity|].
  cbn [Str.mem Str.rfind_from]. intros H. apply orb_false_elim in H. destruct H as [Hx Hs].
  rewrite (IH _ Hs), Hx. reflexivity.
Qed.

(** The last occurrence is found where it is. *)
Lemma rfind_from_last (c : ascii) (a b : string) (i : Z) :
  0 <= i -> Str.mem c b = false ->
  Str.rfind_from c (a +:+ String c b) i = i + Z.of_nat (String.length a).
Proof.
  revert i. induction a as [|x a IH]; intros i Hi Hb.
  - change ("" +:+ String c b) with (String c b). cbn [Str.rfind_from String.length].
    rewrite (rfind_from_absent _ _ _ Hb). rewrite Ascii.eqb_refl.
    change (0 <=? -1) with false. cbv iota. change (Z.of_nat 0) with 0. lia.
  - change (String x a +:+ String c b) with (String x (a +:+ String c b)).
    cbn [Str.rfind_from]. rewrite (IH (i + 1)); [|lia|exact Hb].
    rewrite (proj2 (Z.leb_le _ _)) by lia. cbv iota. cbn [String.length]. lia.
Qed.

(** ** From a benchmark file to its profile *)

(** The root of [<tool>.bc] is [<tool>], for a tool name that is not
    hidden and holds no slash. *)
Lemma splitext_bc (tool : string) :
  tool <> "" -> Str.startswith "." tool = false -> Str.mem "/" tool = false ->
  OsPath.splitext (tool +:+ ".bc") = (tool, ".bc").
Proof.
  intros Hne Hdot Hslash. unfold OsPath.splitext, Str.rfind.
  rewrite (rfind_from_absent "/" (tool +:+ ".bc") 0)
    by (rewrite mem_append, Hslash; reflexivity).
  change (tool +:+ ".bc") with (tool +:+ String "." "bc") at 1.
  rewrite (rfind_from_last "." tool "bc" 0) by (lia || reflexivity).
  destruct tool as [|x rest]; [congruence|].
  assert (Hx : x <> "."%char).
  { intros ->. unfold Str.startswith in Hdot.
    change (String.prefix "." (String "." rest)) with
      (if ascii_dec "." "." then String.prefix "" rest else false) in Hdot.
    destruct (ascii_dec "." "."); [|congruence]. destruct rest; discriminate. }
  rewrite (proj2 (Z.ltb_lt _ _)) by (cbn [String.length]; lia).
  replace (Z.to_nat (0 + Z.of_nat (String.length (String x rest)) - (-1 + 1)))
    with (S (String.length rest)) by (cbn [String.length]; lia).
  cbn [OsPath.splitext_loop].
  assert (Hc : String.eqb (Str.char_at (String x rest +:+ ".bc") (-1 + 1)) "." = false).
  { assert (Hch : Str.char_at (String x rest +:+ ".bc") (-1 + 1) = String x "")
      by (destruct rest; reflexivity).
    rewrite Hch. apply String.eqb_neq. congruence. }
  rewrite Hc. cbn [negb]. f_equal.
  - unfold Str.take.
    replace (Z.to_nat (0 + Z.of_nat (String.length (String x rest))))
      with (String.length (String x rest)) by lia.
    apply substring_take_prefix.
  - unfold Str.drop.
    replace (Z.to_nat (0 + Z.of_nat (String.length (String x rest))))
      with (String.length (String x rest) + 0)%nat by lia.
    rewrite substring_skip_prefix. rewrite length_append.
    replace (String.length (String x rest) + String.length ".bc"
             - (String.length (String x rest) + 0))%nat with 3%nat
      by (cbn [String.length]; lia).
    reflexivity.
Qed.

(** X1. For a benchmark file [<tool>.bc], whatever was looked up before,
    [sym_flags] returns the tokens of the entry the class body has for
    [<tool>], and those of the default profile when it has none. *)
Theorem sym_flags_by_tool_name (self : KLEE) (tool : string) (w : world) :
  tool <> "" -> Str.startswith "." tool = false -> Str.mem "/" tool = false ->
  table_reachable (w_SYM_ARGS w) ->
  (KLEE_sym_flags self (tool +:+ ".bc") w).1 =
    Ok (SymArgs_argument_list
          (default default_SymArgs (items KLEE_SYM_ARGS !! tool))).
Proof.
  intros Hne Hdot Hslash Hreach. rewrite sym_flags_run. cbn [fst].
  rewrite (splitext_bc tool Hne Hdot Hslash). cbn [fst].
  rewrite getitem_value. destruct (table_reachable_inv _ Hreach) as [Hf Hi].
  do 2 f_equal.
  destruct (items (w_SYM_ARGS w) !! tool) as [v|] eqn:E.
  - destruct (Hi _ _ E) as [->|[-> ->]]; reflexivity.
  - destruct (items KLEE_SYM_ARGS !! tool) as [v|] eqn:E0; [|exact Hf].
    exfalso.
    assert (Hmono : forall d, table_reachable d -> items d !! tool = Some v).
    { clear -E0. induction 1 as [|d key Hd IH]; [exact E0|].
      rewrite getitem_items. destruct (items d !! key) eqn:Ek; [exact IH|].
      rewrite lookup_insert_ne; [exact IH|]. intros ->. congruence. }
    rewrite (Hmono _ Hreach) in E. discriminate.
Qed.

Lemma sym_flags_by_tool_name_witness :
  (KLEE_sym_flags Fixture.my_klee ("echo" +:+ ".bc")
     (KLEE_sym_flags Fixture.my_klee "foo.bc" Fixture.w0).2).1 =
  Ok ["--sym-args 0 4 300"; "--sym-files 2 30"; "--sym-stdin 30"; "--sym-stdout"].
Proof.
  rewrite (sym_flags_by_tool_name Fixture.my_klee "echo").
  - reflexivity.
  - discriminate.
  - reflexivity.
  - reflexivity.
  - rewrite sym_flags_run. cbn [snd w_SYM_ARGS set_SYM_ARGS]. apply reach_getitem, reach_init.
Defined.

(** ** Where the output goes *)

Lemma split_path_go_slash (a b cur : string) :
  FS.split_path_go (a +:+ String "/" b) cur
  = FS.split_path_go a cur ++ FS.split_path_go b "".
Proof.
  revert cur. induction a as [|c a IH]; intros cur; [reflexivity|].
  change (String c a +:+ String "/" b) with (String c (a +:+ String "/" b)).
  cbn [FS.split_path_go]. destruct (Ascii.eqb c "/").
  - rewrite IH. rewrite app_assoc. reflexivity.
  - apply IH.
Qed.

Lemma split_path_go_simple (s cur : string) :
  Str.mem "/" s = false ->
  FS.split_path_go s cur = if String.eqb (cur +:+ s) "" then [] else [cur +:+ s].
Proof.
  revert cur. induction s as [|c s IH]; intros cur H.
  - cbn [FS.split_path_go]. rewrite append_empty_r. reflexivity.
  - cbn [Str.mem] in H. apply orb_false_elim in H. destruct H as [Hc Hs].
    cbn [FS.split_path_go]. rewrite Hc. rewrite (IH _ Hs).
    rewrite append_assoc. reflexivity.
Qed.

(** A name without slash is one component. *)
Lemma split_path_simple (s : string) :
  s <> "" -> Str.mem "/" s = false -> FS.split_path s = [s].
Proof.
  intros Hne H. unfold FS.split_path. rewrite (split_path_go_simple s "" H).
  change ("" +:+ s) with s. destruct (String.eqb_spec s ""); [congruence|reflexivity].
Qed.

Lemma output_base_dir_not_closed (benchmark_path : string) :
  String.eqb (KLEE_output_base_dir benchmark_path) "" = false /\
  Str.endswith "/" (KLEE_output_base_dir benchmark_path) = false.
Proof.
  unfold KLEE_output_base_dir. split.
  - destruct benchmark_path; reflexivity.
  - unfold Str.endswith. rewrite length_append.
    rewrite (proj2 (Nat.leb_le _ _)) by (cbn [String.length]; lia).
    replace (String.length benchmark_path + String.length "-klee-out" - String.length "/")%nat
      with (String.length benchmark_path + 8)%nat by (cbn [String.length]; lia).
    rewrite substring_skip_prefix. reflexivity.
Qed.

(** The output directory for a relative configuration name. *)
Lemma output_dir_relative (k : KLEE) (benchmark_path : string) :
  Str.startswith "/" (name k) = false ->
  KLEE_output_dir k (KLEE_output_base_dir benchmark_path)
  = benchmark_path +:+ "-klee-out/" +:+ name k.
Proof.
  intros Hk. unfold KLEE_output_dir, OsPath.join. rewrite Hk.
  destruct (output_base_dir_not_closed benchmark_path) as [-> ->]. cbn [orb].
  unfold KLEE_output_base_dir. rewrite append_assoc. reflexivity.
Qed.

Lemma no_slash_relative (s : string) :
  Str.mem "/" s = false -> Str.startswith "/" s = false.
Proof.
  intros Hk. unfold Str.startswith. destruct s as [|c s]; [reflexivity|].
  cbn [Str.mem] in Hk. apply orb_false_elim in Hk. destruct Hk as [Hc _].
  change (String.prefix "/" (String c s))
    with (if ascii_dec "/" c then String.prefix "" s else false).
  destruct (ascii_dec "/" c) as [<-|]; [discriminate|reflexivity].
Qed.

(** The output directory is a child of the base directory, for a
    configuration name that is one component. *)
Lemma output_dir_path (k : KLEE) (benchmark_path : string) :
  name k <> "" -> Str.mem "/" (name k) = false ->
  FS.split_path (KLEE_output_dir k (KLEE_output_base_dir benchmark_path))
  = FS.split_path (KLEE_output_base_dir benchmark_path) ++ [name k].
Proof.
  intros Hne Hslash. rewrite (output_dir_relative k _ (no_slash_relative _ Hslash)).
  change (benchmark_path +:+ "-klee-out/" +:+ name k)
    with (benchmark_path +:+ "-klee-out" +:+ String "/" (name k)).
  rewrite <- append_assoc. unfold FS.split_path at 1. rewrite split_path_go_slash.
  f_equal. apply (split_path_simple _ Hne Hslash).
Qed.



(** ** What building an invocation leaves alone *)

Lemma rmtree_frame (p : list string) (ignore_errors : bool)
    (fs : gmap (list string) node) (q : list string) :
  ~ p `prefix_of` q -> (FS.rmtree p ignore_errors fs).2 !! q = fs !! q.
Proof.
  intros Hp. unfold FS.rmtree. destruct p as [|x p].
  - exfalso. apply Hp. apply prefix_nil.
  - destruct (fs !! (x :: p)) as [[?|]|]; cbn [snd]; try reflexivity.
    rewrite remove_tree_lookup. rewrite bool_decide_eq_false_2; [reflexivity|exact Hp].
Qed.

Lemma command_frame (self : KLEE) (entry : DirEntry.t)
    (w w1 : world) (tokens : list string) (q : list string) :
  KLEE_command self entry w = (Ok tokens, w1) ->
  let out := FS.split_path (KLEE_output_dir self (KLEE_output_base_dir (DirEntry.path entry))) in
  let sandbox := FS.split_path KLEE_SANDBOX in
  ~ out `prefix_of` q -> ~ sandbox `prefix_of` q ->
  ~ q `prefix_of` out -> ~ q `prefix_of` sandbox ->
  w_fs w1 !! q = w_fs w !! q /\
  w_events w1 = w_events w /\ w_clock w1 = w_clock w /\
  w_BENCHMARKS_PATH w1 = w_BENCHMARKS_PATH w.
Proof.
  intros H out sandbox Ho Hs Hqo Hqs.
  destruct (command_run _ _ _ _ _ H) as (fs1 & fs2 & fs4 & H1 & H2 & H4 & -> & _).
  fold out in H1, H2. fold sandbox in H4.
  cbn [w_fs w_events w_clock w_BENCHMARKS_PATH set_SYM_ARGS set_fs].
  split; [|repeat split].
  destruct (makedirs_frame _ _ _ _ H4 q) as [->|(_ & _ & Hp & _)]; [|contradiction].
  rewrite rmtree_frame by exact Hs.
  apply (f_equal snd) in H2. cbn [snd] in H2. rewrite <- H2.
  rewrite rmtree_frame by exact Ho.
  destruct (makedirs_frame _ _ _ _ H1 q) as [->|(_ & _ & Hp & _)]; [reflexivity|contradiction].
Qed.

(** X3. [KLEE.command] changes the file system only at the output
    directory of its configuration, at the sandbox, below them and on the
    way to them; it prints nothing and takes no time. *)
Theorem command_touches_only_its_directories (self : KLEE) (entry : DirEntry.t)
    (w w1 : world) (tokens : list string) (q : list string) :
  KLEE_command self entry w = (Ok tokens, w1) ->
  let out := FS.split_path (KLEE_output_dir self (KLEE_output_base_dir (DirEntry.path entry))) in
  let sandbox := FS.split_path KLEE_SANDBOX in
  ~ out `prefix_of` q -> ~ sandbox `prefix_of` q ->
  ~ q `prefix_of` out -> ~ q `prefix_of` sandbox ->
  w_fs w1 !! q = w_fs w !! q /\
  w_events w1 = w_events w /\ w_clock w1 = w_clock w /\
  w_BENCHMARKS_PATH w1 = w_BENCHMARKS_PATH w.
Proof. exact (command_frame self entry w w1 tokens q). Qed.


Lemma command_touches_only_its_directories_witness :
  let w1 := (KLEE_command Fixture.bd_klee Fixture.foo Fixture.w0).2 in
  w_fs w1 !! FS.split_path (DirEntry.path Fixture.foo) = Some (File "BC") /\
  w_events w1 = [].
Proof.
  intros w1.
  destruct (KLEE_command Fixture.bd_klee Fixture.foo Fixture.w0).1 as [tokens|e] eqn:E;
    [|vm_compute in E; discriminate].
  apply (run_result (KLEE_command Fixture.bd_klee Fixture.foo) Fixture.w0 tokens) in E.
  fold w1 in E. clearbody w1.
  destruct (command_touches_only_its_directories Fixture.bd_klee Fixture.foo
              Fixture.w0 w1 tokens (FS.split_path (DirEntry.path Fixture.foo)) E)
    as (Hfs & Hev & _); try not_prefix.
  split; [rewrite Hfs; vm_compute; reflexivity|rewrite Hev; reflexivity].
Defined.


(** ** When the invocation cannot be built *)

Lemma makedirs_at_file (p : list string) (exist_ok : bool)
    (fs : gmap (list string) node) (text : string) :
  FS.isdir fs (FS.parent p) = true -> fs !! p = Some (File text) -> p <> [] ->
  FS.makedirs p exist_ok fs = Raise FileExistsError.
Proof.
  intros Hpar Hp Hne. unfold FS.makedirs.
  assert (Hfin : FS.makedirs_finish p exist_ok fs = Raise FileExistsError).
  { unfold FS.makedirs_finish, FS.mkdir. destruct p as [|y t]; [congruence|].
    unfold FS.isdir in Hpar.
    destruct (FS.node_at fs (FS.parent (y :: t))) as [[?|]|]; try discriminate.
    rewrite Hp. unfold FS.isdir, FS.node_at. rewrite Hp. rewrite orb_true_r. reflexivity. }
  destruct (rev p) as [|x rl] eqn:E.
  { apply (f_equal (@rev string)) in E. rewrite rev_involutive in E. cbn in E. congruence. }
  assert (Hrl : rev rl = FS.parent p).
  { apply (f_equal (@rev string)) in E. rewrite rev_involutive in E. rewrite E.
    cbn [rev]. rewrite parent_snoc. reflexivity. }
  cbn [FS.makedirs_rev]. rewrite Hrl.
  assert (Hex : FS.exists_ fs (FS.parent p) = true).
  { unfold FS.exists_. unfold FS.isdir in Hpar.
    destruct (FS.node_at fs (FS.parent p)); [reflexivity|discriminate]. }
  rewrite Hex. cbn [negb]. rewrite <- E, rev_involutive. exact Hfin.
Qed.

Section Refusals.

Variable shell : string -> string -> gmap (list string) node -> process.

(** X5. When the path of the output directory names a regular file,
    [os.makedirs(..., exist_ok=True)] raises [FileExistsError]: neither
    [KLEE.command] nor [KLEE.run] changes anything, nothing is logged and
    no child is started. *)
Theorem run_refuses_file_as_output_dir (self : KLEE) (entry : DirEntry.t)
    (w : world) (text : string) :
  let out := FS.split_path (KLEE_output_dir self (KLEE_output_base_dir (DirEntry.path entry))) in
  well_formed (w_fs w) ->
  w_fs w !! out = Some (File text) ->
  KLEE_command self entry w = (Raise FileExistsError, w) /\
  KLEE_run shell self entry w = (Raise FileExistsError, w).
Proof.
  intros out Hwf Hfile.
  destruct (well_formed_lookup _ _ _ Hwf Hfile) as [Hne Hpar].
  assert (Hc : KLEE_command self entry w = (Raise FileExistsError, w)).
  { unfold KLEE_command. bind_step. unfold os_makedirs at 1, lift_fs. fold out.
    rewrite (makedirs_at_file out true (w_fs w) text Hpar Hfile Hne). reflexivity. }
  split; [exact Hc|]. unfold KLEE_run. bind_step. rewrite Hc. reflexivity.
Qed.

End Refusals.

(** ** Entries of the corpus directory *)

(** Joining a directory and a name adds one component. *)
Lemma split_path_join (dir nm : string) :
  nm <> "" -> Str.mem "/" nm = false ->
  FS.split_path (OsPath.join dir nm) = FS.split_path dir ++ [nm].
Proof.
  intros Hne Hs. unfold OsPath.join. rewrite (no_slash_relative nm Hs).
  destruct (String.eqb_spec dir "") as [->|Hd]; cbn [orb].
  - change ("" +:+ nm) with nm. rewrite (split_path_simple nm Hne Hs). reflexivity.
  - destruct (Str.endswith "/" dir) eqn:He.
    + destruct (endswith_inv _ _ He) as [a ->].
      rewrite append_assoc. change ("/" +:+ nm) with (String "/" nm).
      unfold FS.split_path. rewrite !split_path_go_slash.
      rewrite (split_path_go_simple nm "" Hs). change ("" +:+ nm) with nm.
      destruct (String.eqb_spec nm ""); [congruence|].
      cbn [FS.split_path_go String.eqb]. rewrite app_nil_r. reflexivity.
    + change (dir +:+ "/" +:+ nm) with (dir +:+ String "/" nm).
      unfold FS.split_path. rewrite split_path_go_slash.
      rewrite (split_path_go_simple nm "" Hs). change ("" +:+ nm) with nm.
      destruct (String.eqb_spec nm ""); [congruence|reflexivity].
Qed.

(** In a tree, what lies on the way to a directory is a directory. *)
Lemma well_formed_dir_prefix (fs : gmap (list string) node) (p l : list string) :
  well_formed fs -> FS.isdir fs (p ++ l) = true -> FS.isdir fs p = true.
Proof.
  intros Hwf. induction l as [|x l IH] using rev_ind.
  - rewrite app_nil_r. tauto.
  - intros H. apply IH. rewrite app_assoc in H.
    apply isdir_lookup in H; [|destruct (p ++ l); discriminate].
    destruct (well_formed_lookup _ _ _ Hwf H) as [_ Hpar].
    rewrite parent_snoc in Hpar. exact Hpar.
Qed.

Lemma isdir_of_lookup (fs : gmap (list string) node) (p : list string) :
  p = [] \/ fs !! p = Some Dir -> FS.isdir fs p = true.
Proof.
  unfold FS.isdir, FS.node_at. intros [->|H]; [reflexivity|].
  destruct p; [reflexivity|]. rewrite H. reflexivity.
Qed.

(** The output directory of an entry of the corpus directory lies two
    levels below that directory. *)
Lemma scanned_output_dir (self : KLEE) (dir nm : string) :
  nm <> "" -> Str.mem "/" nm = false ->
  name self <> "" -> Str.mem "/" (name self) = false ->
  FS.split_path (KLEE_output_dir self (KLEE_output_base_dir (OsPath.join dir nm)))
  = FS.split_path dir ++ [nm +:+ "-klee-out"; name self].
Proof.
  intros Hne Hs Hk Hks.
  rewrite (output_dir_path self (OsPath.join dir nm) Hk Hks).
  unfold KLEE_output_base_dir.
  destruct nm as [|c rest] eqn:En; [congruence|].
  rewrite (join_then_extend dir (String c rest) "-klee-out" c rest eq_refl).
  - rewrite split_path_join.
    + rewrite <- app_assoc. reflexivity.
    + discriminate.
    + rewrite mem_append, Hs. reflexivity.
  - intros ->. discriminate.
Qed.

Section ScannedEntries.

Variable shell : string -> string -> gmap (list string) node -> process.

(** X6. For an entry of the directory [KLEE.BENCHMARKS_PATH], as
    [os.scandir] yields it, building the invocation creates that directory
    if it was missing (it lies on the way to the output directory), so the
    child can always be started in it: [KLEE.run] returns normally
    whenever [KLEE.command] does, and otherwise raises what [KLEE.command]
    raised, in the world it left. *)
Theorem run_in_scanned_directory_returns (self : KLEE) (entry : DirEntry.t) (w : world) :
  let cwd := FS.split_path (w_BENCHMARKS_PATH w) in
  well_formed (w_fs w) ->
  DirEntry.name entry <> "" -> Str.mem "/" (DirEntry.name entry) = false ->
  DirEntry.path entry = OsPath.join (w_BENCHMARKS_PATH w) (DirEntry.name entry) ->
  name self <> "" -> Str.mem "/" (name self) = false ->
  ~ FS.split_path KLEE_SANDBOX `prefix_of` cwd ->
  (forall tokens w1, KLEE_command self entry w = (Ok tokens, w1) ->
     FS.isdir (w_fs w1) cwd = true /\
     exists w2, KLEE_run shell self entry w = (Ok tt, w2)) /\
  (forall e w1, KLEE_command self entry w = (Raise e, w1) ->
     KLEE_run shell self entry w = (Raise e, w1)).
Proof.
  intros cwd Hwf Hne Hs Hpath Hk Hks Hsb. split.
  - intros tokens w1 Hc.
    assert (Hcwd : FS.isdir (w_fs w1) cwd = true).
    { destruct (command_run _ _ _ _ _ Hc) as (fs1 & fs2 & fs4 & H1 & H2 & H4 & -> & _).
      cbn [w_fs set_SYM_ARGS set_fs].
      rewrite Hpath, (scanned_output_dir self _ _ Hne Hs Hk Hks) in H1, H2.
      fold cwd in H1, H2.
      pose proof (well_formed_makedirs _ _ _ _ Hwf H1) as Hwf1.
      pose proof (well_formed_dir_prefix _ _ _ Hwf1 (makedirs_isdir _ _ _ _ H1)) as Hd1.
      destruct cwd as [|c0 cw] eqn:Ecwd; [reflexivity|]. rewrite <- Ecwd in *.
      assert (Hcne : cwd <> []) by (rewrite Ecwd; discriminate).
      apply isdir_lookup in Hd1; [|exact Hcne].
      apply isdir_of_lookup. right.
      destruct (makedirs_frame _ _ _ _ H4 cwd) as [->|(_ & -> & _)]; [|reflexivity].
      rewrite rmtree_frame by exact Hsb.
      apply (f_equal snd) in H2. cbn [snd] in H2. rewrite <- H2.
      rewrite rmtree_frame; [exact Hd1|].
      intros Hp. apply prefix_length in Hp. rewrite length_app in Hp. cbn in Hp. lia. }
    split; [exact Hcwd|].
    assert (Hbp : w_BENCHMARKS_PATH w1 = w_BENCHMARKS_PATH w).
    { destruct (command_run _ _ _ _ _ Hc) as (? & ? & ? & _ & _ & _ & -> & _). reflexivity. }
    unfold cwd in Hcwd. rewrite <- Hbp in Hcwd.
    destruct (run_returns shell _ _ _ _ _ Hc Hcwd) as (w2 & Hrun & _).
    exists w2. exact Hrun.
  - intros e w1 Hc. unfold KLEE_run. bind_step. rewrite Hc. reflexivity.
Qed.

(** X7. A run whose child can be started takes at least no time and at
    most the escalated limit plus the time the killed child needs to be
    gone; a child that ends by itself within the escalated limit makes the
    run last exactly as long as the child, and one that does not makes it
    last the escalated limit at least. *)
Theorem run_duration_bounded (self : KLEE) (entry : DirEntry.t) (w w1 : world)
    (tokens : list string) :
  KLEE_command self entry w = (Ok tokens, w1) ->
  FS.isdir (w_fs w1) (FS.split_path (w_BENCHMARKS_PATH w1)) = true ->
  let proc := shell (Str.join " " tokens) (w_BENCHMARKS_PATH w1) (w_fs w1) in
  let limit := KLEE_MAX_TIME * KLEE_WAIT_UNTIL_KILL_SCALE in
  0 <= dies_after_kill proc ->
  (forall d, exits_after proc = Some d -> 0 <= d) ->
  exists w2,
    KLEE_run shell self entry w = (Ok tt, w2) /\
    w_clock w <= w_clock w2 <= w_clock w + limit + dies_after_kill proc /\
    (forall d, exits_after proc = Some d -> d <= limit -> w_clock w2 = w_clock w + d) /\
    (match exits_after proc with Some d => limit < d | None => True end ->
     w_clock w + limit <= w_clock w2).
Proof.
  intros Hc Hcwd proc limit Hdies Hpos.
  assert (Hclk : w_clock w1 = w_clock w).
  { destruct (command_run _ _ _ _ _ Hc) as (? & ? & ? & _ & _ & _ & -> & _). reflexivity. }
  assert (Hkilled : match exits_after proc with Some d => limit < d | None => True end ->
    exists w2, KLEE_run shell self entry w = (Ok tt, w2) /\
      w_clock w + limit <= w_clock w2 <= w_clock w + limit + dies_after_kill proc).
  { intros Hlate.
    destruct (run_child_killed shell _ _ _ _ _ Hc Hcwd Hlate) as (t_end & code & Hend & Hrun).
    eexists. split; [exact Hrun|].
    cbn [w_clock add_event child_ran_until set_fs set_clock].
    fold proc in Hend. fold limit in Hend. rewrite Hclk in *.
    unfold Popen_end in Hend. cbn [child started killed] in Hend.
    destruct (exits_after proc) as [d|]; cbn [fmap option_fmap option_map fst] in Hend.
    - destruct (_ <=? _) eqn:Hcmp in Hend; injection Hend as <- _.
      + apply Z.leb_le in Hcmp. lia.
      + lia.
    - injection Hend as <- _. lia. }
  destruct (exits_after proc) as [d|] eqn:Ed.
  - destruct (Z_le_gt_dec d limit) as [Hle|Hgt].
    + eexists. split; [exact (run_child_finishes shell _ _ _ _ _ _ Hc Hcwd Ed Hle)|].
      cbn [w_clock add_event child_ran_until set_fs set_clock]. rewrite Hclk.
      pose proof (Hpos d eq_refl). unfold limit, KLEE_MAX_TIME, KLEE_WAIT_UNTIL_KILL_SCALE in *.
      split; [lia|]. split; [intros d' [= <-] _; lia|intros; lia].
    + destruct Hkilled as (w2 & Hrun & Hb); [lia|].
      exists w2. split; [exact Hrun|]. split; [unfold limit, KLEE_MAX_TIME, KLEE_WAIT_UNTIL_KILL_SCALE in *; lia|].
      split; [intros d' [= <-] Hd'; lia|intros _; lia].
  - destruct Hkilled as (w2 & Hrun & Hb); [exact I|].
    exists w2. split; [exact Hrun|]. split; [unfold limit, KLEE_MAX_TIME, KLEE_WAIT_UNTIL_KILL_SCALE in *; lia|].
    split; [discriminate|intros _; lia].
Qed.

End ScannedEntries.

Lemma run_refuses_file_as_output_dir_witness :
  KLEE_run Fixture.klee_hangs Fixture.bd_klee Fixture.foo Fixture.w_blocked
  = (Raise FileExistsError, Fixture.w_blocked).
Proof.
  apply (run_refuses_file_as_output_dir Fixture.klee_hangs Fixture.bd_klee Fixture.foo
           Fixture.w_blocked "BC").
  - assert (H : bool_decide (well_formed (w_fs Fixture.w_blocked)) = true)
      by (vm_compute; reflexivity).
    exact (bool_decide_eq_true_1 _ H).
  - vm_compute. reflexivity.
Defined.

Lemma run_in_scanned_directory_returns_witness :
  FS.isdir (w_fs Fixture.w_bare) (FS.split_path (w_BENCHMARKS_PATH Fixture.w_bare)) = false /\
  exists w2, KLEE_run Fixture.klee_hangs Fixture.bd_klee Fixture.foo Fixture.w_bare = (Ok tt, w2).
Proof.
  split; [vm_compute; reflexivity|].
  destruct (KLEE_command Fixture.bd_klee Fixture.foo Fixture.w_bare).1 as [tokens|e] eqn:E;
    [|vm_compute in E; discriminate].
  apply (run_result (KLEE_command Fixture.bd_klee Fixture.foo) Fixture.w_bare tokens) in E.
  assert (Hwf : well_formed (w_fs Fixture.w_bare)).
  { assert (H : bool_decide (well_formed (w_fs Fixture.w_bare)) = true)
      by (vm_compute; reflexivity).
    exact (bool_decide_eq_true_1 _ H). }
  assert (Hsb : ~ FS.split_path KLEE_SANDBOX `prefix_of`
                  FS.split_path (w_BENCHMARKS_PATH Fixture.w_bare)) by not_prefix.
  assert (Hn : DirEntry.name Fixture.foo <> "") by discriminate.
  assert (Hk : name Fixture.bd_klee <> "") by discriminate.
  destruct (run_in_scanned_directory_returns Fixture.klee_hangs Fixture.bd_klee Fixture.foo
              Fixture.w_bare Hwf Hn eq_refl eq_refl Hk eq_refl Hsb) as [Hok _].
  destruct (Hok tokens _ E) as [_ Hrun]. exact Hrun.
Defined.

Lemma run_duration_bounded_witness :
  exists w2,
    KLEE_run Fixture.klee_writes_info Fixture.bd_klee Fixture.foo Fixture.w0 = (Ok tt, w2) /\
    w_clock w2 = 1.
Proof.
  destruct (KLEE_command Fixture.bd_klee Fixture.foo Fixture.w0).1 as [tokens|e] eqn:E;
    [|vm_compute in E; discriminate].
  apply (run_result (KLEE_command Fixture.bd_klee Fixture.foo) Fixture.w0 tokens) in E.
  destruct (run_duration_bounded Fixture.klee_writes_info Fixture.bd_klee Fixture.foo
              Fixture.w0 _ tokens E) as (w2 & Hrun & _ & Hexact & _).
  - vm_compute. reflexivity.
  - cbn. lia.
  - intros d [= <-]. lia.
  - exists w2. split; [exact Hrun|].
    rewrite (Hexact 1 eq_refl); [reflexivity|]. vm_compute. discriminate.
Defined.

(** ** Passing over what is done *)

Section Resumption.

Variable shell : string -> string -> gmap (list string) node -> process.
Variable unified_diff : list string -> list string -> string -> string -> Z -> list string.

Lemma main_loop_from_passes_over (bd_klee my_klee : KLEE)
    (rc : ResultComparator) (benchmarks_len i : Z) (finished rest : list DirEntry.t)
    (w : world) :
  Forall (fun benchmark =>
            FS.exists_ (w_fs w)
              (FS.split_path (OsPath.join (KLEE_output_base_dir (DirEntry.path benchmark))
                                          "klee_stats_diff.patch")) = true) finished ->
  main_loop_from shell unified_diff bd_klee my_klee rc benchmarks_len i (finished ++ rest) w
  = main_loop_from shell unified_diff bd_klee my_klee rc benchmarks_len
      (i + Z.of_nat (length finished)) rest w.
Proof.
  intros Hdone. revert i. induction Hdone as [|b l Hb Hl IH]; intros j.
  - cbn [app length]. change (Z.of_nat 0) with 0. rewrite Z.add_0_r. reflexivity.
  - cbn [app main_loop_from]. bind_step.
    unfold main_loop_body at 1. bind_step.
    rewrite has_both_solutions_run, Hb. cbn [mret M_ret].
    rewrite IH. f_equal. cbn [length]. lia.
Qed.

(** X8. The scheduler passes over a run of benchmarks that all have their
    [klee_stats_diff.patch] without any effect, and goes on with the rest
    as if it had started there, the index counting the benchmarks passed
    over; a pass over a corpus that is done changes nothing. *)
Theorem finished_benchmarks_are_passed_over (bd_klee my_klee : KLEE)
    (rc : ResultComparator) (benchmarks_len i : Z) (finished rest : list DirEntry.t)
    (w : world) :
  Forall (fun benchmark =>
            FS.exists_ (w_fs w)
              (FS.split_path (OsPath.join (KLEE_output_base_dir (DirEntry.path benchmark))
                                          "klee_stats_diff.patch")) = true) finished ->
  main_loop_from shell unified_diff bd_klee my_klee rc benchmarks_len i (finished ++ rest) w
  = main_loop_from shell unified_diff bd_klee my_klee rc benchmarks_len
      (i + Z.of_nat (length finished)) rest w /\
  main_loop shell unified_diff bd_klee my_klee rc finished w = (Ok tt, w).
Proof.
  intros Hdone. split; [apply main_loop_from_passes_over; exact Hdone|].
  unfold main_loop. rewrite <- (app_nil_r finished) at 2.
  rewrite main_loop_from_passes_over by exact Hdone. reflexivity.
Qed.

End Resumption.

Lemma finished_benchmarks_are_passed_over_witness :
  main_loop Fixture.klee_hangs Difflib.unified_diff Fixture.bd_klee Fixture.my_klee
    Fixture.stats_comparator [Fixture.foo; Fixture.foo] Fixture.w_done
  = (Ok tt, Fixture.w_done).
Proof.
  apply (finished_benchmarks_are_passed_over Fixture.klee_hangs Difflib.unified_diff
           Fixture.bd_klee Fixture.my_klee Fixture.stats_comparator 2 0
           [Fixture.foo; Fixture.foo] [] Fixture.w_done).
  repeat constructor.
Defined.

(** ** The time report, for every number of benchmarks *)

Lemma strftime_out_of_range (seconds : Z) :
  ~ 0 <= seconds < Datetime.MAXORDINAL * 86400 ->
  Datetime.min_plus_seconds_strftime seconds = Raise OverflowError.
Proof.
  intros Hr. unfold Datetime.min_plus_seconds_strftime, Datetime.MAXORDINAL in *.
  destruct (Z_lt_le_dec seconds 0) as [Hneg|Hpos].
  - assert (seconds / 86400 < 0) by (apply Z.div_lt_upper_bound; lia).
    rewrite (proj2 (Z.ltb_ge _ _)) by lia. reflexivity.
  - assert (3652059 <= seconds / 86400) by (apply Z.div_le_lower_bound; lia).
    rewrite (proj2 (Z.leb_gt _ _)) by lia. rewrite andb_false_r. reflexivity.
Qed.

(** X9. The time report is printed exactly when the number of benchmarks
    left is not negative and below 1314741240, the number for which the
    worst-case bound reaches the end of the calendar: then one line with
    the two durations as times of the day is printed, otherwise
    [OverflowError] is raised and nothing is printed. *)
Theorem time_report_prints_iff_within_calendar (benchmarks_left : Z) (w : world) :
  (0 <= benchmarks_left < 1314741240 ->
   print_estimated_time_left benchmarks_left w =
     (Ok tt,
      add_event
        (EvPrint ("ESTIMATED TIME LEFT: "
                  +:+ clock_face ((benchmarks_left * 120) mod 86400)
                  +:+ " (no more than "
                  +:+ clock_face ((benchmarks_left * 240) mod 86400) +:+ ")")) w)) /\
  (~ 0 <= benchmarks_left < 1314741240 ->
   print_estimated_time_left benchmarks_left w = (Raise OverflowError, w)).
Proof.
  unfold print_estimated_time_left, human_readable_time, mbind, M_bind, emit,
    KLEE_MAX_TIME, NUMBER_OF_COMPARED_KLEES, KLEE_WAIT_UNTIL_KILL_SCALE.
  replace (benchmarks_left * 60 * 2) with (benchmarks_left * 120) by lia.
  replace (benchmarks_left * 120 * 2) with (benchmarks_left * 240) by lia.
  split; intros Hr.
  - rewrite !strftime_in_range by (unfold Datetime.MAXORDINAL; lia). reflexivity.
  - destruct (Z_lt_le_dec benchmarks_left 0) as [Hneg|Hpos].
    + rewrite (strftime_out_of_range (benchmarks_left * 120)) by lia. reflexivity.
    + rewrite (strftime_out_of_range (benchmarks_left * 240))
        by (unfold Datetime.MAXORDINAL; lia).
      destruct (Z_lt_le_dec (benchmarks_left * 120) (Datetime.MAXORDINAL * 86400)).
      * rewrite (strftime_in_range (benchmarks_left * 120)) by lia. reflexivity.
      * rewrite (strftime_out_of_range (benchmarks_left * 120)) by lia. reflexivity.
Qed.

Lemma time_report_prints_iff_within_calendar_witness :
  print_estimated_time_left 3 Fixture.w0 =
    (Ok tt,
     add_event
       (EvPrint "ESTIMATED TIME LEFT: 00 hours, 06 minutes, 00 seconds (no more than 00 hours, 12 minutes, 00 seconds)")
       Fixture.w0) /\
  print_estimated_time_left (-1) Fixture.w0 = (Raise OverflowError, Fixture.w0).
Proof.
  destruct (time_report_prints_iff_within_calendar 3 Fixture.w0) as [Hin _].
  destruct (time_report_prints_iff_within_calendar (-1) Fixture.w0) as [_ Hout].
  split; [apply Hin; lia|apply Hout; lia].
Defined.

(** ** The two comparisons *)

Section Comparisons.

Variable klee_stats : string -> gmap (list string) node -> list string.
Variable unified_diff : list string -> list string -> string -> string -> Z -> list string.



End Comparisons.



(** ** main *)

(** The names [os.listdir] yields are the last components of the entries
    whose parent is the directory. *)
Lemma elem_of_listdir (d : list string) (fs : gmap (list string) node) (nm : string) :
  nm ∈ FS.listdir d fs <->
  exists p n, fs !! p = Some n /\ last p = Some nm /\ FS.parent p = d.
Proof.
  unfold FS.listdir. rewrite list_elem_of_omap. split.
  - intros [[p n] [Hin H]]. apply elem_of_map_to_list in Hin. cbn [fst] in H.
    destruct (last p) as [x|] eqn:El; [|discriminate].
    destruct (bool_decide (FS.parent p = d)) eqn:Ep; [|discriminate].
    apply bool_decide_eq_true_1 in Ep. injection H as ->. eauto.
  - intros (p & n & Hp & Hl & Hd). exists (p, n). split.
    + apply elem_of_map_to_list. exact Hp.
    + cbn [fst]. rewrite Hl. rewrite bool_decide_eq_true_2 by exact Hd. reflexivity.
Qed.

Section Main.

Variable shell : string -> string -> gmap (list string) node -> process.
Variable klee_stats : string -> gmap (list string) node -> list string.
Variable unified_diff : list string -> list string -> string -> string -> Z -> list string.

(** What [main] does once [KLEE.BENCHMARKS_PATH] is [dir], when every
    benchmark of [dir] is done. *)
Lemma main_in_finished_directory (dir : string) (w : world) :
  let logfile := OsPath.join dir "run-exps.log" in
  FS.isdir (w_fs w) (FS.split_path dir) = true ->
  FS.isdir (w_fs w) (FS.split_path logfile) = false ->
  (forall nm, nm ∈ FS.listdir (FS.split_path dir) (w_fs w) ->
     Str.startswith "." nm = false -> Str.endswith ".bc" nm = true ->
     FS.exists_ (w_fs w)
       (FS.split_path (OsPath.join (KLEE_output_base_dir (OsPath.join dir nm))
                                   "klee_stats_diff.patch")) = true) ->
  (open_write logfile;;
   entries ← os_scandir dir;
   let benchmarks :=
     List.filter (fun entry => negb (Str.startswith "." (DirEntry.name entry))
                               && Str.endswith ".bc" (DirEntry.name entry)) entries in
   let bd_klee := KLEE_init "No___Blacklist" (Some ["--disable-blacklist"]) in
   let my_klee := KLEE_init "With_Blacklist" None in
   let result_comparator := mkResultComparator bd_klee my_klee (KleeStatsDiffer klee_stats) in
   main_loop shell unified_diff bd_klee my_klee result_comparator benchmarks) w
  = (Ok tt,
     set_fs (<[FS.split_path logfile := File ""]> (w_fs w))
       (add_event (EvOpenWrite logfile) w)).
Proof.
  intros logfile Hdir Hlog Hdone.
  assert (Pl : FS.split_path logfile = FS.split_path dir ++ ["run-exps.log"])
    by (apply split_path_join; [discriminate|reflexivity]).
  clearbody logfile.
  bind_step. unfold open_write, emit, lift_fs. bind_step. cbn [w_fs add_event].
  destruct (open_w_succeeds (FS.split_path logfile) (w_fs w)) as [fs1 E].
  { rewrite Pl, parent_snoc. exact Hdir. }
  { exact Hlog. }
  rewrite E. destruct (open_w_inv _ _ _ E) as [-> _].
  bind_step. unfold os_scandir. cbn [w_fs set_fs add_event].
  assert (Hdir' : FS.node_at (<[FS.split_path logfile := File ""]> (w_fs w)) (FS.split_path dir)
                  = Some Dir).
  { unfold FS.isdir, FS.node_at in *.
    destruct (FS.split_path dir) as [|d0 D] eqn:ED; [reflexivity|].
    rewrite lookup_insert_ne.
    - destruct (w_fs w !! (d0 :: D)) as [[?|]|]; congruence.
    - rewrite Pl. intros Heq. apply (f_equal length) in Heq.
      rewrite length_app in Heq. cbn in Heq. lia. }
  rewrite Hdir'.
  unfold main_loop.
  match goal with |- main_loop_from _ _ ?bd ?my ?rc ?len 0 ?l ?w' = _ =>
    pose proof (main_loop_from_passes_over shell unified_diff bd my rc len 0 l [] w') as Hpass;
    rewrite app_nil_r in Hpass; rewrite Hpass; [reflexivity|]; clear Hpass
  end.
  apply Forall_forall. intros entry Hin.
  apply list_elem_of_In in Hin. apply filter_In in Hin. destruct Hin as [Hin Hsel].
  apply in_map_iff in Hin. destruct Hin as (nm & <- & Hnm).
  cbn [DirEntry.name DirEntry.path] in Hsel |- *.
  apply andb_prop in Hsel. destruct Hsel as [Hdot Hbc].
  apply negb_true_iff in Hdot.
  apply list_elem_of_In in Hnm. apply elem_of_listdir in Hnm.
  destruct Hnm as (p & n & Hp & Hl & Hpar).
  cbn [w_fs set_fs add_event].
  assert (Hold : nm ∈ FS.listdir (FS.split_path dir) (w_fs w)).
  { apply elem_of_listdir. destruct (decide (p = FS.split_path logfile)) as [->|Hne].
    - exfalso. rewrite Pl, last_snoc in Hl. injection Hl as <-. discriminate Hbc.
    - rewrite lookup_insert_ne in Hp by congruence. eauto. }
  specialize (Hdone nm Hold Hdot Hbc). revert Hdone.
  unfold FS.exists_, FS.node_at.
  destruct (FS.split_path (OsPath.join _ "klee_stats_diff.patch")) as [|x m]; [reflexivity|].
  destruct (decide (FS.split_path logfile = x :: m)) as [<-|Hne].
  - rewrite lookup_insert_eq. reflexivity.
  - rewrite lookup_insert_ne by exact Hne. tauto.
Qed.

(** X12. Called on a corpus directory in which every benchmark that is not
    hidden has its [klee_stats_diff.patch], [main] starts no tool and
    prints nothing: it sets [KLEE.BENCHMARKS_PATH], truncates the log file
    [run-exps.log] in the corpus directory, and returns.  The log file it
    has just created is among the entries scanned and is passed by, as
    every name that does not end in [.bc]. *)
Theorem main_on_finished_corpus_runs_nothing (w : world) :
  let dir := "/home/columpio/coreutils/obj-llvm/src" in
  let logfile := OsPath.join dir "run-exps.log" in
  FS.isdir (w_fs w) (FS.split_path dir) = true ->
  FS.isdir (w_fs w) (FS.split_path logfile) = false ->
  (forall nm, nm ∈ FS.listdir (FS.split_path dir) (w_fs w) ->
     Str.startswith "." nm = false -> Str.endswith ".bc" nm = true ->
     FS.exists_ (w_fs w)
       (FS.split_path (OsPath.join (KLEE_output_base_dir (OsPath.join dir nm))
                                   "klee_stats_diff.patch")) = true) ->
  main shell klee_stats unified_diff w =
    (Ok tt,
     set_fs (<[FS.split_path logfile := File ""]> (w_fs w))
       (add_event (EvOpenWrite logfile) (set_BENCHMARKS_PATH dir w))).
Proof.
  intros dir logfile Hdir Hlog Hdone. unfold main. bind_step. bind_step.
  exact (main_in_finished_directory dir (set_BENCHMARKS_PATH dir w) Hdir Hlog Hdone).
Qed.



End Main.

Lemma main_on_finished_corpus_runs_nothing_witness :
  let w' := (main Fixture.klee_hangs Fixture.klee_stats_stub Difflib.unified_diff
               Fixture.w_done).2 in
  (main Fixture.klee_hangs Fixture.klee_stats_stub Difflib.unified_diff Fixture.w_done).1
    = Ok tt /\
  w_events w' = [(0, EvOpenWrite "/home/columpio/coreutils/obj-llvm/src/run-exps.log")] /\
  FS.listdir (FS.split_path Fixture.src_dir) (w_fs Fixture.w_done)
    = ["foo.bc-klee-out"; "foo.bc"].
Proof.
  intros w'. subst w'.
  rewrite (main_on_finished_corpus_runs_nothing Fixture.klee_hangs Fixture.klee_stats_stub
             Difflib.unified_diff Fixture.w_done).
  - cbn [fst snd]. split; [reflexivity|]. split; vm_compute; reflexivity.
  - vm_compute. reflexivity.
  - vm_compute. reflexivity.
  - intros nm Hnm Hdot Hbc.
    replace (FS.listdir (FS.split_path "/home/columpio/coreutils/obj-llvm/src")
               (w_fs Fixture.w_done))
      with ["foo.bc-klee-out"; "foo.bc"] in Hnm by (vm_compute; reflexivity).
    apply elem_of_cons in Hnm. destruct Hnm as [->|Hnm]; [discriminate Hbc|].
    apply list_elem_of_singleton in Hnm. subst nm. vm_compute. reflexivity.
Defined.


(** ** Building the invocation twice *)

Lemma getitem_twice (key : string) (d : defaultdict) :
  defaultdict_getitem key (defaultdict_getitem key d).2
  = ((defaultdict_getitem key d).1, (defaultdict_getitem key d).2).
Proof.
  unfold defaultdict_getitem. destruct (items d !! key) as [v|] eqn:E; cbn [fst snd items].
  - rewrite E. reflexivity.
  - rewrite lookup_insert_eq. reflexivity.
Qed.

(** What [KLEE.command] leaves at the paths it is concerned with does not
    depend on what was there. *)
Lemma command_fs_at (self : KLEE) (entry : DirEntry.t) (w w1 : world)
    (tokens : list string) (q : list string) :
  well_formed (w_fs w) ->
  KLEE_command self entry w = (Ok tokens, w1) ->
  let out := FS.split_path (KLEE_output_dir self (KLEE_output_base_dir (DirEntry.path entry))) in
  let sandbox := FS.split_path KLEE_SANDBOX in
  out <> [] /\
  (q = [] -> w_fs w1 !! q = None) /\
  (sandbox `prefix_of` q -> q <> sandbox -> w_fs w1 !! q = None) /\
  (q `prefix_of` sandbox -> q <> [] -> w_fs w1 !! q = Some Dir) /\
  (out `prefix_of` q -> ~ q `prefix_of` sandbox -> w_fs w1 !! q = None) /\
  (q `prefix_of` out -> q <> [] -> ~ out `prefix_of` q -> ~ sandbox `prefix_of` q ->
   w_fs w1 !! q = Some Dir).
Proof.
  intros Hwf Hc out sandbox.
  pose proof (well_formed_command _ _ _ _ _ Hwf Hc) as Hwf4.
  destruct (command_run _ _ _ _ _ Hc) as (fs1 & fs2 & fs4 & H1 & H2 & H4 & -> & _).
  fold out in H1, H2. fold sandbox in H4.
  cbn [w_fs set_SYM_ARGS set_fs] in *.
  pose proof (well_formed_makedirs _ _ _ _ Hwf H1) as Hwf1.
  pose proof (makedirs_isdir _ _ _ _ H1) as Hd1.
  assert (Hne : out <> []).
  { intros E. rewrite E in H2. unfold FS.rmtree in H2. discriminate. }
  assert (E2 : fs2 = FS.remove_tree out fs1).
  { apply isdir_lookup in Hd1; [|exact Hne]. unfold FS.rmtree in H2.
    destruct out; [congruence|]. rewrite Hd1 in H2. congruence. }
  assert (Hwf2 : well_formed fs2) by (rewrite E2; apply well_formed_remove_tree; exact Hwf1).
  pose proof (makedirs_isdir _ _ _ _ H4) as Hd4.
  assert (Hsne : sandbox <> []) by (unfold sandbox; rewrite sandbox_path; discriminate).
  assert (Hbelow : sandbox `prefix_of` q -> q <> sandbox -> fs4 !! q = None).
  { intros Hs Hq.
    assert (H3 : (FS.rmtree sandbox true fs2).2 !! q = None).
    { unfold FS.rmtree. destruct sandbox as [|s0 sb] eqn:Es; [congruence|].
      rewrite <- Es in *.
      destruct (fs2 !! sandbox) as [[text|]|] eqn:E; cbn [snd].
      - apply (well_formed_below fs2 sandbox q Hwf2 Hsne); [congruence|exact Hs|exact Hq].
      - rewrite remove_tree_lookup. rewrite bool_decide_eq_true_2 by exact Hs. reflexivity.
      - apply (well_formed_below fs2 sandbox q Hwf2 Hsne); [congruence|exact Hs|exact Hq]. }
    destruct (makedirs_frame _ _ _ _ H4 q) as [->|(_ & _ & Hp & _)]; [exact H3|].
    exfalso. apply Hq. apply (anti_symm prefix); assumption. }
  split; [exact Hne|]. split; [|split; [exact Hbelow|split; [|split]]].
  - intros ->. destruct (fs4 !! []) eqn:E; [|reflexivity].
    destruct (well_formed_lookup _ _ _ Hwf4 E) as [Hn _]. congruence.
  - intros Hq Hqne. apply isdir_lookup; [exact Hqne|].
    destruct Hq as [l Hl]. rewrite Hl in Hd4.
    exact (well_formed_dir_prefix _ _ _ Hwf4 Hd4).
  - intros Ho Hqs. destruct (decide (sandbox `prefix_of` q)) as [Hs|Hs].
    + apply Hbelow; [exact Hs|]. intros ->. apply Hqs. reflexivity.
    + destruct (makedirs_frame _ _ _ _ H4 q) as [->|(_ & _ & Hp & _)]; [|contradiction].
      rewrite rmtree_frame by exact Hs. rewrite E2, remove_tree_lookup.
      rewrite bool_decide_eq_true_2 by exact Ho. reflexivity.
  - intros Hq Hqne Ho Hs.
    assert (Hq1 : fs1 !! q = Some Dir).
    { apply isdir_lookup; [exact Hqne|]. destruct Hq as [l Hl]. rewrite Hl in Hd1.
      exact (well_formed_dir_prefix _ _ _ Hwf1 Hd1). }
    destruct (makedirs_frame _ _ _ _ H4 q) as [->|(_ & -> & _)]; [|reflexivity].
    rewrite rmtree_frame by exact Hs. rewrite E2, remove_tree_lookup.
    rewrite bool_decide_eq_false_2 by exact Ho. exact Hq1.
Qed.

(** X14. Building the invocation a second time, right after the first,
    gives the same tokens and changes nothing: on a file system that is a
    tree, the world [KLEE.command] leaves is a fixed point of it. *)
Theorem command_twice_is_command_once (self : KLEE) (entry : DirEntry.t) (w w1 : world)
    (tokens : list string) :
  well_formed (w_fs w) ->
  KLEE_command self entry w = (Ok tokens, w1) ->
  KLEE_command self entry w1 = (Ok tokens, w1).
Proof.
  intros Hwf Hc.
  pose proof (well_formed_command _ _ _ _ _ Hwf Hc) as Hwf1.
  set (out := FS.split_path (KLEE_output_dir self (KLEE_output_base_dir (DirEntry.path entry)))).
  set (sandbox := FS.split_path KLEE_SANDBOX).
  assert (Hplain : forall q, q `prefix_of` out \/ q `prefix_of` sandbox ->
                             not_a_file (w_fs w1) q).
  { intros q Hq text.
    destruct (command_fs_at self entry w w1 tokens q Hwf Hc)
      as (_ & Hnil & Hbelow & Hup & Hin & Hway).
    fold out in Hin, Hway. fold sandbox in Hbelow, Hup, Hin, Hway.
    destruct (decide (q = [])) as [->|Hqne]; [rewrite Hnil by reflexivity; discriminate|].
    destruct (decide (q `prefix_of` sandbox)) as [Hqs|Hqs];
      [rewrite Hup by assumption; discriminate|].
    destruct Hq as [Hq|Hq]; [|contradiction].
    destruct (decide (out `prefix_of` q)) as [Ho|Ho];
      [rewrite Hin by assumption; discriminate|].
    destruct (decide (sandbox `prefix_of` q)) as [Hs|Hs].
    - rewrite Hbelow; [discriminate|exact Hs|]. intros ->. apply Hqs. reflexivity.
    - rewrite Hway by assumption. discriminate. }
  destruct (command_fs_at self entry w w1 tokens [] Hwf Hc) as (Hne & _).
  destruct (command_succeeds self entry w1 Hne) as (tokens' & w1' & Hc').
  { intros q Hq. apply Hplain. left. exact Hq. }
  { intros q Hq. apply Hplain. right. exact Hq. }
  rewrite Hc'.
  assert (Hfs : w_fs w1' = w_fs w1).
  { apply map_eq. intros q.
    destruct (command_fs_at self entry w w1 tokens q Hwf Hc)
      as (_ & Hnil & Hbelow & Hup & Hin & Hway).
    destruct (command_fs_at self entry w1 w1' tokens' q Hwf1 Hc')
      as (_ & Hnil' & Hbelow' & Hup' & Hin' & Hway').
    fold out in Hin, Hway, Hin', Hway'.
    fold sandbox in Hbelow, Hup, Hin, Hway, Hbelow', Hup', Hin', Hway'.
    destruct (decide (q = [])) as [->|Hqne];
      [rewrite Hnil, Hnil' by reflexivity; reflexivity|].
    destruct (decide (q `prefix_of` sandbox)) as [Hqs|Hqs];
      [rewrite Hup, Hup' by assumption; reflexivity|].
    destruct (decide (sandbox `prefix_of` q)) as [Hs|Hs].
    { assert (q <> sandbox) by (intros ->; apply Hqs; reflexivity).
      rewrite Hbelow, Hbelow' by assumption. reflexivity. }
    destruct (decide (out `prefix_of` q)) as [Ho|Ho];
      [rewrite Hin, Hin' by assumption; reflexivity|].
    destruct (decide (q `prefix_of` out)) as [Hqo|Hqo];
      [rewrite Hway, Hway' by assumption; reflexivity|].
    apply (command_frame self entry w1 w1' tokens' q Hc'); assumption. }
  destruct (command_run _ _ _ _ _ Hc) as (a1 & a2 & a4 & _ & _ & _ & Ew1 & Et).
  destruct (command_run _ _ _ _ _ Hc') as (b1 & b2 & b4 & _ & _ & _ & Ew1' & Et').
  assert (Hsym : w_SYM_ARGS w1
                 = (defaultdict_getitem (OsPath.splitext (DirEntry.name entry)).1
                      (w_SYM_ARGS w)).2)
    by (rewrite Ew1; reflexivity).
  assert (Hbp : w_BENCHMARKS_PATH w1 = w_BENCHMARKS_PATH w) by (rewrite Ew1; reflexivity).
  rewrite Hsym, getitem_twice in Et', Ew1'. cbn [fst snd] in Et', Ew1'.
  rewrite Hbp in Et'. rewrite <- Et in Et'. subst tokens'.
  f_equal.
  rewrite Ew1' in Hfs |- *. cbn [w_fs set_SYM_ARGS set_fs] in Hfs. rewrite Hfs.
  rewrite <- Hsym. destruct w1; reflexivity.
Qed.

Lemma command_twice_is_command_once_witness :
  let w1 := (KLEE_command Fixture.bd_klee Fixture.foo Fixture.w0).2 in
  (KLEE_command Fixture.bd_klee Fixture.foo w1).2 = w1.
Proof.
  intros w1.
  destruct (KLEE_command Fixture.bd_klee Fixture.foo Fixture.w0).1 as [tokens|e] eqn:E;
    [|vm_compute in E; discriminate].
  apply (run_result (KLEE_command Fixture.bd_klee Fixture.foo) Fixture.w0 tokens) in E.
  fold w1 in E. clearbody w1.
  rewrite (command_twice_is_command_once Fixture.bd_klee Fixture.foo Fixture.w0 w1 tokens
             fs0_well_formed E).
  reflexivity.
Defined.

(** ** What the shell delivers *)










